(** * Regulatory intelligence report generator: the workflow and the PDF renderer

    A shallow embedding of [AI model/app.py]: the seeded update records,
    [group_updates_by_impact], the flowable list built by [generate_pdf],
    and the session workflow (Idle, Running, Complete, Failure) that the
    script runs on every refresh. *)

From stdpp Require Import gmap strings list pretty.

(** ** Python exceptions and fallible computations *)

(** The exceptions this program can raise: a missing dictionary key, a
    [None] used as an iterable, and the [Exception(msg)] of the pipeline's
    failure hook. All three are instances of Python's [Exception], which
    is what [except Exception] catches. *)
Inductive exn :=
| KeyError (key : string)
| TypeError (msg : string)
| Exception (msg : string).

(** [str(e)]: the message of an [Exception]; the [repr] of the key for a
    [KeyError]. *)
Definition str_exn (e : exn) : string :=
  match e with
  | KeyError k => "'" +:+ k +:+ "'"
  | TypeError m => m
  | Exception m => m
  end.

Inductive result (A : Type) :=
| Ok (a : A)
| Raise (e : exn).
Arguments Ok {A} a.
Arguments Raise {A} e.

Global Instance result_ret : MRet result := λ A a, Ok a.

Global Instance result_bind : MBind result := λ A B k r,
  match r with
  | Ok a => k a
  | Raise e => Raise e
  end.

(** A [for] loop whose body may raise: the accumulator is the mutated
    object, the first exception leaves the loop. *)
Fixpoint for_each {A S} (body : S → A → result S) (s : S) (l : list A) : result S :=
  match l with
  | [] => Ok s
  | x :: l' => s' ← body s x; for_each body s' l'
  end.

(** ** Update records *)

Record update := {
  id : Z;
  country : string;
  regulation_name : string;
  reference_number : string;
  authority : string;
  summary : string;
  key_changes : list string;
  effective_date : string;
  compliance_deadline : string;
  transition_period : string;
  applicable : bool;
  impact_level : string;
  harmonization : list string;
  affected_products : list string;
  rationale : string;
}.

Definition COUNTRIES : list string := [
  "United States"; "United Kingdom"; "Japan"; "United Arab Emirates"; "Korea, Republic of";
  "India"; "China"; "Italy"; "Switzerland"; "Taiwan"; "Spain"; "Turkey"; "Israel"; "Germany"; "Canada"
].

Definition PRODUCTS : list string := [
  "Guardant360"; "Guardant360 CDx"; "GuardantOMNI"; "Guardant Reveal"; "Shield"
].

Definition STUB_UPDATES : list update := [
  {| id := 1;
     country := "United States";
     regulation_name := "CLIA Update 2025";
     reference_number := "CLIA-2025-01";
     authority := "CMS";
     summary := "CLIA regulations updated for NGS-based diagnostics.";
     key_changes := [
       "Expanded oversight for ctDNA tests.";
       "New reporting requirements.";
       "Shortened compliance window."
     ];
     effective_date := "2025-12-01";
     compliance_deadline := "2026-03-01";
     transition_period := "3 months";
     applicable := true;
     impact_level := "CRITICAL";
     harmonization := ["CLIA"; "CAP"; "FDA guidance"];
     affected_products := ["Guardant360"; "GuardantOMNI"];
     rationale := "Immediate compliance required for NGS-based tests." |};
  {| id := 2;
     country := "Japan";
     regulation_name := "PMDA Guidance on Liquid Biopsy";
     reference_number := "PMDA-2025-02";
     authority := "PMDA";
     summary := "New guidance for liquid biopsy cancer screening.";
     key_changes := [
       "Clarified requirements for ctDNA.";
       "Introduced ISO 15189 mapping.";
       "Defined transition period."
     ];
     effective_date := "2026-01-15";
     compliance_deadline := "2026-07-15";
     transition_period := "6 months";
     applicable := true;
     impact_level := "HIGH";
     harmonization := ["ISO 15189"; "IMDRF"];
     affected_products := ["Guardant Reveal"];
     rationale := "Action required within 3 months for new tests." |};
  {| id := 3;
     country := "Germany";
     regulation_name := "EU IVDR Update";
     reference_number := "IVDR-2025-03";
     authority := "BfArM";
     summary := "EU IVDR changes for multi-gene panels.";
     key_changes := [
       "Expanded scope for NGS panels.";
       "New harmonization with ISO 13485.";
       "Monitoring only for now."
     ];
     effective_date := "2025-11-01";
     compliance_deadline := "2026-05-01";
     transition_period := "6 months";
     applicable := false;
     impact_level := "LOW";
     harmonization := ["ISO 13485"; "EU IVDR"];
     affected_products := [];
     rationale := "Monitoring only; no immediate action." |}
].

(** [sep.join(l)] *)
Definition join (sep : string) (l : list string) : string := String.concat sep l.

(** ** The grouping helper *)

(** [d[key]]: a missing key raises [KeyError]. *)
Definition getitem {V} (d : gmap string V) (key : string) : result V :=
  match d !! key with
  | Some v => Ok v
  | None => Raise (KeyError key)
  end.

(** [buckets[update["impact_level"]].append(update)] *)
Definition bucket_append (buckets : gmap string (list update)) (u : update)
  : result (gmap string (list update)) :=
  bucket ← getitem buckets (impact_level u);
  Ok (<[impact_level u := bucket ++ [u]]> buckets).

Definition empty_buckets : gmap string (list update) :=
  <["CRITICAL" := []]> (<["HIGH" := []]> (<["MEDIUM" := []]> (<["LOW" := []]> ∅))).

Definition group_updates_by_impact (updates : list update)
  : result (gmap string (list update)) :=
  for_each bucket_append empty_buckets updates.

(** The four impact levels that have a bucket. *)
Definition IMPACT_LEVELS : list string := ["CRITICAL"; "HIGH"; "MEDIUM"; "LOW"].

Definition recognized (u : update) : Prop := impact_level u ∈ IMPACT_LEVELS.

Global Instance recognized_dec u : Decision (recognized u).
Proof. unfold recognized. apply _. Defined.

(** The records of [updates] whose impact level is [level], in input order. *)
Definition of_level (level : string) (updates : list update) : list update :=
  filter (λ u, impact_level u = level) updates.

(** The buckets are those of the four levels, and no other. *)
Definition has_all_levels (b : gmap string (list update)) : Prop :=
  ∀ k, is_Some (b !! k) ↔ k ∈ IMPACT_LEVELS.

(** ** Clock readings and their formatting *)

(** A reading of [datetime.datetime.now()]. *)
Record datetime := {
  year : N;
  month : N;
  day : N;
  hour : N;
  minute : N;
  second : N;
}.

(** A field printed on at least two digits, as [%m], [%d], [%H], [%M], [%S]. *)
Definition pad2 (n : N) : string :=
  if (n <? 10)%N then "0" +:+ pretty n else pretty n.

(** The year printed on four digits, as [%Y]. *)
Definition pad4 (n : N) : string :=
  if (n <? 10)%N then "000" +:+ pretty n
  else if (n <? 100)%N then "00" +:+ pretty n
  else if (n <? 1000)%N then "0" +:+ pretty n
  else pretty n.

(** [strftime('%Y-%m-%d %H:%M')] *)
Definition strftime_ymd_hm (d : datetime) : string :=
  pad4 (year d) +:+ "-" +:+ pad2 (month d) +:+ "-" +:+ pad2 (day d)
  +:+ " " +:+ pad2 (hour d) +:+ ":" +:+ pad2 (minute d).

(** [strftime('%H:%M:%S')] *)
Definition strftime_hms (d : datetime) : string :=
  pad2 (hour d) +:+ ":" +:+ pad2 (minute d) +:+ ":" +:+ pad2 (second d).

(** [f"{x:.2f}"] for a duration [x] in seconds. The float is represented by
    its number of microseconds; two decimals are kept, rounding to nearest,
    ties to even. *)
Definition format_2f (us : Z) : string :=
  let a := Z.abs us in
  let q := (a / 10000)%Z in
  let r := (a mod 10000)%Z in
  let c := if (5000 <? r)%Z || ((r =? 5000)%Z && Z.odd q) then (q + 1)%Z else q in
  (if (us <? 0)%Z then "-" else "")
  +:+ pretty (c / 100)%Z +:+ "." +:+ pad2 (Z.to_N (c mod 100)).

(** ** The report renderer *)

Inductive style := styleN | styleH | styleH2 | styleH3.

(** The flowables handed to [doc.build]. A [Spacer]'s height is kept in
    hundredths of an inch: [Spacer 1 20] is [Spacer(1, 0.2*inch)]. A
    [Paragraph] stands for one that reportlab has built: reportlab reads
    the text as markup when it builds the paragraph and raises on
    unbalanced tags, which is not represented here. *)
Inductive flowable :=
| Paragraph (text : string) (sty : style)
| Spacer (width : N) (height : N)
| PageBreak.

Global Instance style_eq_dec : EqDecision style.
Proof. solve_decision. Defined.

Global Instance flowable_eq_dec : EqDecision flowable.
Proof. solve_decision. Defined.

Definition impact_sections : list (string * string) := [
  ("CRITICAL", "Critical or High Priority");
  ("HIGH", "High Priority");
  ("MEDIUM", "Medium Priority");
  ("LOW", "Emerging Trends / No Material Changes")
].

(** The title block, lines 124 to 130. *)
Definition header (now : datetime) : list flowable := [
  Paragraph "Guardant Health Regulatory Intelligence - MVP Report" styleH;
  Spacer 1 20;
  Paragraph ("Countries: " +:+ join ", " COUNTRIES) styleN;
  Paragraph ("Products: " +:+ join ", " PRODUCTS) styleN;
  Spacer 1 20;
  Paragraph ("Generated at: " +:+ strftime_ymd_hm now) styleN;
  Spacer 1 30
].

(** The body of the loop over a section's records, lines 149 to 171:
    the flowables it appends to [elements]. *)
Definition render_update (rationales affected : gmap Z string)
    (elements : list flowable) (u : update) : list flowable :=
  let elements := elements ++ [
    Paragraph ("<b>[" +:+ (if applicable u then "GUARDANT HEALTH APPLICABLE"
                           else "NOT DIRECTLY APPLICABLE") +:+ "]</b>") styleN;
    Paragraph ("<b>Country & Regulation</b>: " +:+ country u +:+ ", "
               +:+ regulation_name u +:+ " (" +:+ reference_number u +:+ "), "
               +:+ authority u) styleN;
    Paragraph ("<b>Change Summary</b>: " +:+ summary u) styleN;
    Paragraph "<b>Key Changes:</b>" styleN ] in
  let elements :=
    foldl (λ els change, els ++ [Paragraph ("- " +:+ change) styleN])
          elements (key_changes u) in
  let elements := elements ++ [
    Paragraph "<b>Guardant Health Impact Assessment:</b>" styleN;
    Paragraph ("- <b>Impact Level</b>: " +:+ impact_level u) styleN ] in
  let rationale := default (rationale u) (rationales !! id u) in
  let elements := elements ++ [
    Paragraph ("- <b>Rationale</b>: " +:+ rationale) styleN ] in
  let affected_str :=
    default (join ", " (affected_products u)) (affected !! id u) in
  elements ++ [
    Paragraph ("- <b>Affected Products or Operations</b>: " +:+ affected_str) styleN;
    Paragraph "<b>Action Required:</b>" styleN;
    Paragraph "1. [Specific compliance step 1]" styleN;
    Paragraph "2. [Specific compliance step 2]" styleN;
    Paragraph "3. [Specific compliance step 3]" styleN;
    Paragraph "<b>Timeline:</b>" styleN;
    Paragraph ("- Effective Date: " +:+ effective_date u) styleN;
    Paragraph ("- Compliance Deadline: " +:+ compliance_deadline u) styleN;
    Paragraph ("- Transition Period: " +:+ transition_period u) styleN;
    Paragraph ("<b>Related Standards or Regulations</b>: "
               +:+ join ", " (harmonization u)) styleN;
    Paragraph "<b>Cross-Reference:</b> [Links or notes to similar changes in other countries if applicable]" styleN;
    Spacer 1 20 ].

(** One turn of the loop over [impact_sections], lines 140 to 172. The
    empty branch ends in [continue]: it leaves the turn before the page
    break of line 172. *)
Definition render_section (rationales affected : gmap Z string)
    (buckets : gmap string (list update))
    (elements : list flowable) (sec : string * string) : result (list flowable) :=
  let '(impact, section_title) := sec in
  section_updates ← getitem buckets impact;
  let elements := elements ++ [Paragraph section_title styleH2; Spacer 1 15] in
  match section_updates with
  | [] =>
      Ok (elements ++ [Paragraph "No updates in this section." styleN; Spacer 1 10])
  | _ :: _ =>
      let elements := foldl (render_update rationales affected) elements section_updates in
      Ok (elements ++ [PageBreak])
  end.

(** The list [elements] at line 174, for a reading [now] of the clock at
    line 129. *)
Definition generate_pdf_elements (now : datetime) (updates : list update)
    (rationales affected : gmap Z string) : result (list flowable) :=
  let elements := header now in
  buckets ← group_updates_by_impact updates;
  for_each (render_section rationales affected buckets) elements impact_sections.

Section Renderer.

(** [doc.build(elements)] followed by [buffer.getvalue()]: the layout of
    the flowables into the bytes of a PDF is reportlab's, and is taken as
    a function of the flowable list. The dates and the identifier that
    reportlab stamps into the bytes from its own clock are not
    represented. *)
Variable doc_build : list flowable → list Byte.byte.

Definition generate_pdf (now : datetime) (updates : list update)
    (rationales affected : gmap Z string) : result (list Byte.byte) :=
  elements ← generate_pdf_elements now updates rationales affected;
  Ok (doc_build elements).

End Renderer.

(** *** Reading a rendered document back *)





(** The block of one record, for the rationale and affected-products
    texts [r] and [a] that it is to show. *)
Definition record_block (u : update) (r a : string) : list flowable :=
  [ Paragraph ("<b>[" +:+ (if applicable u then "GUARDANT HEALTH APPLICABLE"
                           else "NOT DIRECTLY APPLICABLE") +:+ "]</b>") styleN;
    Paragraph ("<b>Country & Regulation</b>: " +:+ country u +:+ ", "
               +:+ regulation_name u +:+ " (" +:+ reference_number u +:+ "), "
               +:+ authority u) styleN;
    Paragraph ("<b>Change Summary</b>: " +:+ summary u) styleN;
    Paragraph "<b>Key Changes:</b>" styleN ]
  ++ map (λ change, Paragraph ("- " +:+ change) styleN) (key_changes u)
  ++ [ Paragraph "<b>Guardant Health Impact Assessment:</b>" styleN;
       Paragraph ("- <b>Impact Level</b>: " +:+ impact_level u) styleN;
       Paragraph ("- <b>Rationale</b>: " +:+ r) styleN;
       Paragraph ("- <b>Affected Products or Operations</b>: " +:+ a) styleN;
       Paragraph "<b>Action Required:</b>" styleN;
       Paragraph "1. [Specific compliance step 1]" styleN;
       Paragraph "2. [Specific compliance step 2]" styleN;
       Paragraph "3. [Specific compliance step 3]" styleN;
       Paragraph "<b>Timeline:</b>" styleN;
       Paragraph ("- Effective Date: " +:+ effective_date u) styleN;
       Paragraph ("- Compliance Deadline: " +:+ compliance_deadline u) styleN;
       Paragraph ("- Transition Period: " +:+ transition_period u) styleN;
       Paragraph ("<b>Related Standards or Regulations</b>: "
                  +:+ join ", " (harmonization u)) styleN;
       Paragraph "<b>Cross-Reference:</b> [Links or notes to similar changes in other countries if applicable]" styleN;
       Spacer 1 20 ].

(** The text shown for a record's rationale and affected products. *)
Definition shown_rationale (rationales : gmap Z string) (u : update) : string :=
  match rationales !! id u with
  | Some edited => edited
  | None => rationale u
  end.

Definition shown_affected (affected : gmap Z string) (u : update) : string :=
  match affected !! id u with
  | Some edited => edited
  | None => join ", " (affected_products u)
  end.

(** A section as it is laid out for its title and its bucket. *)
Definition section_flowables (rationales affected : gmap Z string)
    (section_title : string) (bucket : list update) : list flowable :=
  [Paragraph section_title styleH2; Spacer 1 15]
  ++ match bucket with
     | [] => [Paragraph "No updates in this section." styleN; Spacer 1 10]
     | _ :: _ =>
         concat (map (λ u, record_block u (shown_rationale rationales u)
                                          (shown_affected affected u)) bucket)
         ++ [PageBreak]
     end.


(** A reading of the clock, and the edit of the affected products of
    record 1. *)
Definition sample_now : datetime :=
  {| year := 2025; month := 12; day := 1; hour := 9; minute := 5; second := 7 |}.

(** A stand-in for the layout: one byte for each flowable, by its kind. *)
Definition outline_build (els : list flowable) : list Byte.byte :=
  map (λ f, match f with
            | Paragraph _ _ => Byte.x50
            | Spacer _ _ => Byte.x53
            | PageBreak => Byte.x42
            end) els.

Definition shield_edit : gmap Z string := {[ 1%Z := "Shield" ]}.

(** ** The session and the workflow *)

(** The entry [st.session_state['error']]: the key is absent until the
    first "Run Analysis", then holds [None] or the message of a failure. *)
Inductive error_slot :=
| ErrAbsent
| ErrNone
| ErrMsg (msg : string).

Record session := {
  state : string;
  results : option (list update);
  rationales : gmap Z string;
  affected : gmap Z string;
  logs : list string;
  error : error_slot;
}.

(** [st.session_state.get('error')] *)
Definition error_string (s : session) : option string :=
  match error s with
  | ErrMsg msg => Some msg
  | _ => None
  end.

Definition set_state (v : string) (s : session) : session :=
  {| state := v; results := results s; rationales := rationales s;
     affected := affected s; logs := logs s; error := error s |}.

Definition set_results (v : option (list update)) (s : session) : session :=
  {| state := state s; results := v; rationales := rationales s;
     affected := affected s; logs := logs s; error := error s |}.

Definition set_rationales (v : gmap Z string) (s : session) : session :=
  {| state := state s; results := results s; rationales := v;
     affected := affected s; logs := logs s; error := error s |}.

Definition set_affected (v : gmap Z string) (s : session) : session :=
  {| state := state s; results := results s; rationales := rationales s;
     affected := v; logs := logs s; error := error s |}.

Definition set_logs (v : list string) (s : session) : session :=
  {| state := state s; results := results s; rationales := rationales s;
     affected := affected s; logs := v; error := error s |}.

Definition set_error (v : error_slot) (s : session) : session :=
  {| state := state s; results := results s; rationales := rationales s;
     affected := affected s; logs := logs s; error := v |}.

(** [st.session_state['logs'].append(line)] *)
Definition append_log (line : string) (s : session) : session :=
  set_logs (logs s ++ [line]) s.

(** Lines 193 to 197: the values of a session that has no ['state'] yet. *)
Definition fresh_session : session :=
  {| state := "Idle"; results := None; rationales := ∅; affected := ∅;
     logs := []; error := ErrAbsent |}.

(** Lines 192 to 197. [None] is a session state without the key ['state']. *)
Definition session_init (ss : option session) : session :=
  match ss with
  | None => fresh_session
  | Some s => s
  end.

(** What one run of the script sees from outside: the button that was
    clicked, if any; the readings of the clock, in the order of the calls
    ([time.time()] in microseconds); and the text the user left in each
    widget, by widget key. *)
Inductive event :=
| NoEvent
| Click (label : string).

Record env := {
  time : nat → Z;
  now : nat → datetime;
  widgets : gmap string string;
}.

(** [st.button(label)] *)
Definition button (ev : event) (label : string) : bool :=
  match ev with
  | Click l => bool_decide (l = label)
  | NoEvent => false
  end.

(** [st.text_area(..., value=value, key=key)] and [st.text_input]: the
    text the user left in the widget, or [value] when they left none. *)
Definition text_widget (e : env) (key value : string) : string :=
  default value (widgets e !! key).

(** How a run of the script ends: it runs to its last line (having
    offered [pdf] for download, if any); it stops at
    [st.experimental_rerun()], whose exception is not an [Exception] and
    passes through [except Exception]; or an exception escapes. *)
Inductive outcome :=
| Finished (pdf : option (list Byte.byte))
| Rerun
| Crashed (e : exn).

(** [render_update_card]: the two values it returns. *)
Definition render_update_card (e : env) (u : update) : string * string :=
  let rationale :=
    text_widget e ("rationale_" +:+ pretty (id u)) (rationale u) in
  let affected :=
    text_widget e ("affected_" +:+ pretty (id u)) (join ", " (affected_products u)) in
  (rationale, affected).

(** *** The Running branch *)

Record locals := { t0 : Z; t1 : Z }.

(** The statements of the [try] body, lines 207 to 223, in order. *)
Definition try_body (e : env) : list (session * locals → session * locals) := [
  (λ '(s, l), (s, {| t0 := time e 0; t1 := t1 l |}));
  (λ '(s, l), (append_log ("Ingestion started at " +:+ strftime_hms (now e 0)) s, l));
  (λ '(s, l), (s, l));
  (λ '(s, l), (append_log ("Parsing started at " +:+ strftime_hms (now e 1)) s, l));
  (λ '(s, l), (s, l));
  (λ '(s, l), (append_log ("Classification started at " +:+ strftime_hms (now e 2)) s, l));
  (λ '(s, l), (s, l));
  (λ '(s, l), (set_results (Some STUB_UPDATES) s, l));
  (λ '(s, l), (s, {| t0 := t0 l; t1 := time e 1 |}));
  (λ '(s, l), (append_log ("Analysis complete in " +:+ format_2f (t1 l - t0 l)
                           +:+ " seconds.") s, l));
  (λ '(s, l), (set_state "Complete" s, l));
  (λ '(s, l), (set_error ErrNone s, l))
].

(** The place of the failure hook of lines 217 and 218: just before the
    statement that stores the results. *)
Definition FAILURE_HOOK : nat := 7.

(** Runs the statements from number [k] on. [fault = Some (pos, ex)] raises
    [ex] just before statement [pos] (after the last one when [pos] is
    their number); the frame is returned as the statements left it. *)
Fixpoint exec_try (k : nat) (stmts : list (session * locals → session * locals))
    (fault : option (nat * exn)) (f : session * locals)
  : (session * locals) * option exn :=
  match fault with
  | Some (pos, ex) =>
      if bool_decide (pos = k) then (f, Some ex)
      else match stmts with
           | [] => (f, None)
           | stmt :: rest => exec_try (S k) rest fault (stmt f)
           end
  | None =>
      match stmts with
      | [] => (f, None)
      | stmt :: rest => exec_try (S k) rest fault (stmt f)
      end
  end.

(** Lines 205 to 229. *)
Definition running_branch (e : env) (fault : option (nat * exn)) (s : session)
  : session * outcome :=
  let '((s, _), raised) :=
    exec_try 0 (try_body e) fault (s, {| t0 := 0; t1 := 0 |}) in
  match raised with
  | None => (s, Rerun)
  | Some ex =>
      let s := append_log ("Error: " +:+ str_exn ex) s in
      let s := set_error (ErrMsg (str_exn ex)) s in
      let s := set_state "Failure" s in
      (s, Rerun)
  end.

(** *** The Complete branch *)

(** Lines 249 to 252, for one record. *)
Definition store_card (e : env) (s : session) (u : update) : session :=
  let '(rationale, affected_text) := render_update_card e u in
  let s := set_rationales (<[id u := rationale]> (rationales s)) s in
  set_affected (<[id u := affected_text]> (affected s)) s.

(** Lines 245 to 252, for one impact level. *)
Definition show_level (e : env) (buckets : gmap string (list update))
    (s : session) (impact : string) : result session :=
  bucket ← getitem buckets impact;
  Ok (foldl (store_card e) s bucket).

Section Script.

Variable doc_build : list flowable → list Byte.byte.

(** Lines 231 to 275. The loop over the levels reads [buckets[impact]]
    for the four keys that [group_updates_by_impact] has put there. *)
Definition complete_branch (ev : event) (e : env) (s : session)
  : session * outcome :=
  match results s with
  | None => (s, Crashed (TypeError "'NoneType' object is not iterable"))
  | Some updates =>
      match group_updates_by_impact updates with
      | Raise ex => (s, Crashed ex)
      | Ok buckets =>
          match for_each (show_level e buckets) s IMPACT_LEVELS with
          | Raise ex => (s, Crashed ex)
          | Ok s =>
              let download :=
                if button ev "Download PDF" then
                  match generate_pdf doc_build (now e 0) updates
                                     (rationales s) (affected s) with
                  | Raise ex => Raise ex
                  | Ok pdf_bytes =>
                      Ok (append_log ("PDF rendered in "
                                      +:+ format_2f (time e 1 - time e 0)
                                      +:+ " seconds.") s,
                          Some pdf_bytes)
                  end
                else Ok (s, None) in
              match download with
              | Raise ex => (s, Crashed ex)
              | Ok (s, pdf) =>
                  if button ev "Reset" then
                    let s := set_state "Idle" s in
                    let s := set_results None s in
                    let s := set_rationales ∅ s in
                    let s := set_affected ∅ s in
                    let s := set_logs [] s in
                    let s := set_error ErrNone s in
                    (s, Rerun)
                  else (s, Finished pdf)
              end
          end
      end
  end.

(** Lines 192 to 288: one run of the script on the session state [ss]. *)
Definition run_script (ev : event) (e : env) (fault : option (nat * exn))
    (ss : option session) : session * outcome :=
  let s := session_init ss in
  if decide (state s = "Idle") then
    if button ev "Run Analysis" then
      let s := set_state "Running" s in
      let s := set_error ErrNone s in
      (s, Rerun)
    else (s, Finished None)
  else if decide (state s = "Running") then
    running_branch e fault s
  else if decide (state s = "Complete") then
    complete_branch ev e s
  else if decide (state s = "Failure") then
    if button ev "Retry" then
      let s := set_state "Idle" s in
      let s := set_error ErrNone s in
      (s, Rerun)
    else (s, Finished None)
  else
    if button ev "Retry" then
      let s := set_state "Idle" s in
      (s, Rerun)
    else (s, Finished None).

(** An exception of the simulated pipeline: raised while it ingests,
    parses or classifies, or at its failure hook. *)
Definition pipeline_fault (fault : option (nat * exn)) : Prop :=
  match fault with
  | None => True
  | Some (pos, _) => pos ≤ FAILURE_HOOK
  end.

(** One transition of the workflow: a run of the script. *)
Definition step (s s' : session) : Prop :=
  ∃ ev e fault, pipeline_fault fault ∧ (run_script ev e fault (Some s)).1 = s'.

Inductive reachable : session → Prop :=
| reachable_fresh : reachable fresh_session
| reachable_step s s' : reachable s → step s s' → reachable s'.

End Script.

(** The frame that the statements of a list leave, run in order from [f]. *)
Definition run_stmts (stmts : list (session * locals → session * locals))
    (f : session * locals) : session * locals :=
  foldl (λ f stmt, stmt f) f stmts.

(** The session a "Reset" leaves, lines 269 to 274. *)
Definition reset_session : session :=
  {| state := "Idle"; results := None; rationales := ∅; affected := ∅;
     logs := []; error := ErrNone |}.

(** What holds of the session in each state of the workflow. *)
Definition workflow_invariant (s : session) : Prop :=
  (state s = "Idle" ∧ results s = None ∧ error_string s = None)
  ∨ (state s = "Running" ∧ results s = None ∧ error s = ErrNone)
  ∨ (state s = "Complete" ∧ results s = Some STUB_UPDATES ∧ error s = ErrNone)
  ∨ (state s = "Failure" ∧ results s = None ∧ ∃ msg, error s = ErrMsg msg).

(** A session in the Failure state, and a clock that stands still. *)
Definition failed_session : session :=
  {| state := "Failure"; results := None; rationales := ∅; affected := ∅;
     logs := ["Ingestion started at 09:05:07"; "Parsing started at 09:05:07";
              "Classification started at 09:05:07";
              "Error: Simulated analysis failure."];
     error := ErrMsg "Simulated analysis failure." |}.

Definition running_session : session :=
  {| state := "Running"; results := None; rationales := ∅; affected := ∅;
     logs := []; error := ErrNone |}.

Definition still_env : env :=
  {| time := λ _, 0%Z; now := λ _, sample_now; widgets := ∅ |}.

(** The session after the pipeline has run in [running_session]. *)
Definition completed_session : session :=
  (run_script outline_build NoEvent still_env None (Some running_session)).1.

(** ** Further definitions for the properties of the script *)

(** The records in the order in which the Complete branch shows their
    cards: level by level, each level in input order. *)
Definition shown_order (updates : list update) : list update :=
  concat (map (λ k, of_level k updates) IMPACT_LEVELS).

(** The session after the cards of [updates] have been shown, lines 245
    to 252. *)
Definition cards_session (e : env) (s : session) (updates : list update) : session :=
  foldl (store_card e) s (shown_order updates).


(** The environment in which the user has left [text] in the widget [key]. *)
Definition with_widget (key text : string) (e : env) : env :=
  {| time := time e; now := now e; widgets := <[key := text]> (widgets e) |}.

(** The sessions the script reaches as it is shipped, the failure hook
    being commented out: no run raises in the pipeline. *)
Inductive reachable_shipped (doc_build : list flowable → list Byte.byte)
  : session → Prop :=
| shipped_fresh : reachable_shipped doc_build fresh_session
| shipped_step s ev e :
    reachable_shipped doc_build s →
    reachable_shipped doc_build (run_script doc_build ev e None (Some s)).1.

(** A record of a level that has no bucket, a Complete session that holds
    it, and a session whose state is none of the four. *)
Definition unknown_update : update :=
  {| id := 4; country := "Canada"; regulation_name := "Device Licence Notice";
     reference_number := "HC-2025-04"; authority := "Health Canada";
     summary := "Notice under review."; key_changes := ["Scope under review."];
     effective_date := "2026-02-01"; compliance_deadline := "2026-08-01";
     transition_period := "6 months"; applicable := true;
     impact_level := "UNKNOWN"; harmonization := []; affected_products := [];
     rationale := "Not yet assessed." |}.

Definition unassessed_session : session :=
  {| state := "Complete"; results := Some (STUB_UPDATES ++ [unknown_update]);
     rationales := ∅; affected := ∅; logs := []; error := ErrNone |}.

Definition paused_session : session :=
  {| state := "Paused"; results := Some STUB_UPDATES; rationales := ∅;
     affected := shield_edit; logs := ["Ingestion started at 09:05:07"];
     error := ErrMsg "Simulated analysis failure." |}.

(** The environment in which the user has typed a rationale for record 2. *)
Definition edited_env : env :=
  with_widget "rationale_2" "Reviewed with the Tokyo office." still_env.

(** One run of the script, whatever is raised in it and wherever. *)
Definition any_step (doc_build : list flowable → list Byte.byte)
    (s s' : session) : Prop :=
  ∃ ev e fault, (run_script doc_build ev e fault (Some s)).1 = s'.

Inductive reachable_any (doc_build : list flowable → list Byte.byte)
  : session → Prop :=
| any_fresh : reachable_any doc_build fresh_session
| any_next s s' :
    reachable_any doc_build s → any_step doc_build s s' →
    reachable_any doc_build s'.

(** What holds of the session in each state when exceptions may be raised
    anywhere in the Running branch: the results may then be there in the
    Idle, Running and Failure states too. *)
Definition any_invariant (s : session) : Prop :=
  (state s = "Idle" ∧ error_string s = None)
  ∨ (state s = "Running" ∧ error s = ErrNone)
  ∨ (state s = "Complete" ∧ results s = Some STUB_UPDATES ∧ error s = ErrNone)
  ∨ (state s = "Failure" ∧ ∃ msg, error s = ErrMsg msg).

(** The session after an exception raised in [running_session] once the
    results are stored, just before [t1] is read. *)
Definition late_failed_session : session :=
  (run_script outline_build NoEvent still_env
     (Some (S FAILURE_HOOK, Exception "late")) (Some running_session)).1.

(** * Properties *)

(** ** Grouping *)

Lemma empty_buckets_levels : has_all_levels empty_buckets.
Proof.
  intros k. rewrite <- elem_of_dom. unfold empty_buckets, IMPACT_LEVELS.
  rewrite !dom_insert_L, dom_empty_L. set_solver.
Qed.

Lemma empty_buckets_lookup k :
  k ∈ IMPACT_LEVELS → empty_buckets !! k = Some [].
Proof.
  unfold IMPACT_LEVELS, empty_buckets. intros Hk.
  repeat (apply elem_of_cons in Hk as [->|Hk]; [by simplify_map_eq|]).
  by apply elem_of_nil in Hk.
Qed.

Lemma of_level_cons k u us :
  of_level k (u :: us) =
  if decide (impact_level u = k) then u :: of_level k us else of_level k us.
Proof. unfold of_level. rewrite filter_cons. by case_decide. Qed.

Lemma bucket_append_ok b u bucket :
  b !! impact_level u = Some bucket →
  bucket_append b u = Ok (<[impact_level u := bucket ++ [u]]> b).
Proof. intros Hb. unfold bucket_append, getitem. by rewrite Hb. Qed.

Lemma bucket_append_levels b u bucket :
  has_all_levels b → b !! impact_level u = Some bucket →
  has_all_levels (<[impact_level u := bucket ++ [u]]> b).
Proof.
  intros Hb Hu k. rewrite lookup_insert. case_decide as Hk.
  - subst k. split; [intros _|by eexists]. apply Hb. by eexists.
  - apply Hb.
Qed.

(** The loop of [group_updates_by_impact], from any buckets that hold the
    four levels: each bucket grows by the records of its level, in order. *)
Lemma group_loop_ok us : ∀ b,
  has_all_levels b → Forall recognized us →
  ∃ b', for_each bucket_append b us = Ok b'
        ∧ has_all_levels b'
        ∧ ∀ k, b' !! k = (λ bucket, bucket ++ of_level k us) <$> (b !! k).
Proof.
  induction us as [|u us IH]; intros b Hb Hus.
  - exists b. split; [done|]. split; [done|]. intros k.
    destruct (b !! k); simpl; [by rewrite app_nil_r|done].
  - apply Forall_cons in Hus as [Hu Hus].
    destruct (proj2 (Hb (impact_level u)) Hu) as [bucket Hbucket].
    destruct (IH _ (bucket_append_levels _ _ _ Hb Hbucket) Hus)
      as (b' & Hrun & Hb' & Hlook).
    exists b'. split; [|split; [done|]].
    + simpl. by rewrite (bucket_append_ok _ _ _ Hbucket).
    + intros k. rewrite Hlook, lookup_insert, of_level_cons.
      case_decide as Hk.
      * subst k. rewrite Hbucket. simpl. by rewrite <- app_assoc.
      * done.
Qed.

(** The same loop stops with a [KeyError] at the first record whose level
    has no bucket. *)
Lemma group_loop_fail us : ∀ b,
  has_all_levels b → ¬ Forall recognized us →
  ∃ k, (k ∉ IMPACT_LEVELS) ∧ for_each bucket_append b us = Raise (KeyError k).
Proof.
  induction us as [|u us IH]; intros b Hb Hus.
  - destruct Hus. constructor.
  - destruct (decide (recognized u)) as [Hu|Hu].
    + destruct (proj2 (Hb (impact_level u)) Hu) as [bucket Hbucket].
      destruct (IH _ (bucket_append_levels _ _ _ Hb Hbucket)) as (k & Hk & Hrun).
      { intros Hus'. apply Hus. by constructor. }
      exists k. split; [done|]. simpl.
      by rewrite (bucket_append_ok _ _ _ Hbucket).
    + exists (impact_level u). split; [done|]. simpl.
      unfold bucket_append, getitem.
      destruct (b !! impact_level u) eqn:Hl; [|done].
      destruct Hu. apply Hb. by eexists.
Qed.

Lemma group_updates_ok updates :
  Forall recognized updates →
  ∃ buckets, group_updates_by_impact updates = Ok buckets
             ∧ has_all_levels buckets
             ∧ ∀ k, k ∈ IMPACT_LEVELS → buckets !! k = Some (of_level k updates).
Proof.
  intros Hus.
  destruct (group_loop_ok updates _ empty_buckets_levels Hus)
    as (b & Hrun & Hb & Hlook).
  exists b. split; [done|]. split; [done|]. intros k Hk.
  by rewrite Hlook, (empty_buckets_lookup _ Hk).
Qed.

Lemma of_levels_permutation updates :
  Forall recognized updates →
  of_level "CRITICAL" updates ++ of_level "HIGH" updates
    ++ of_level "MEDIUM" updates ++ of_level "LOW" updates ≡ₚ updates.
Proof.
  induction 1 as [|u us Hu _ IH]; [done|].
  rewrite !of_level_cons. unfold recognized, IMPACT_LEVELS in Hu.
  repeat (apply elem_of_cons in Hu as [->|Hu]);
    [| | | |by apply elem_of_nil in Hu]; simpl.
  - by constructor.
  - etrans; [symmetry; apply Permutation_middle|]. by constructor.
  - rewrite (app_assoc (of_level "CRITICAL" us)).
    etrans; [symmetry; apply Permutation_middle|].
    rewrite <- app_assoc. by constructor.
  - rewrite 2!app_assoc.
    etrans; [symmetry; apply Permutation_middle|].
    rewrite <- 2!app_assoc. by constructor.
Qed.

(** C4. For a list of records whose impact levels are all among CRITICAL,
    HIGH, MEDIUM and LOW, [group_updates_by_impact] returns exactly four
    buckets, named by the four levels; the bucket of a level holds the
    records of that level in their input order, so every record is in the
    bucket of its level, every bucket is a subsequence of the input, and
    the four buckets together hold the input's records, each once. *)
Theorem group_updates_by_impact_partition (updates : list update) :
  Forall recognized updates →
  ∃ buckets,
    group_updates_by_impact updates = Ok buckets
    ∧ dom buckets = list_to_set IMPACT_LEVELS
    ∧ (∀ k, k ∈ IMPACT_LEVELS → buckets !! k = Some (of_level k updates))
    ∧ (∀ u, u ∈ updates →
         ∃ bucket, buckets !! impact_level u = Some bucket ∧ u ∈ bucket)
    ∧ (∀ k bucket, buckets !! k = Some bucket →
         sublist bucket updates ∧ ∀ u, u ∈ bucket → impact_level u = k)
    ∧ concat (omap (λ k, buckets !! k) IMPACT_LEVELS) ≡ₚ updates.
Proof.
  intros Hus.
  destruct (group_updates_ok updates Hus) as (b & Hrun & Hb & Hlook).
  exists b. split; [done|]. repeat split.
  - apply set_eq. intros k. rewrite elem_of_dom, elem_of_list_to_set. apply Hb.
  - done.
  - intros u Hu. exists (of_level (impact_level u) updates).
    rewrite Forall_forall in Hus. split; [by apply Hlook, Hus|].
    unfold of_level. by apply list_elem_of_filter.
  - assert (k ∈ IMPACT_LEVELS) as Hk by (apply Hb; by eexists).
    rewrite (Hlook k Hk) in H. injection H as <-.
    unfold of_level. apply sublist_filter.
  - assert (k ∈ IMPACT_LEVELS) as Hk by (apply Hb; by eexists).
    rewrite (Hlook k Hk) in H. injection H as <-.
    intros u Hu. unfold of_level in Hu. by apply list_elem_of_filter in Hu as [? _].
  - unfold IMPACT_LEVELS. simpl.
    rewrite !Hlook by (unfold IMPACT_LEVELS; set_solver). simpl.
    rewrite app_nil_r. by apply of_levels_permutation.
Qed.

Lemma group_updates_by_impact_partition_witness :
  Forall recognized STUB_UPDATES
  ∧ ∃ buckets,
    group_updates_by_impact STUB_UPDATES = Ok buckets
    ∧ dom buckets = list_to_set IMPACT_LEVELS
    ∧ (∀ k, k ∈ IMPACT_LEVELS → buckets !! k = Some (of_level k STUB_UPDATES))
    ∧ (∀ u, u ∈ STUB_UPDATES →
         ∃ bucket, buckets !! impact_level u = Some bucket ∧ u ∈ bucket)
    ∧ (∀ k bucket, buckets !! k = Some bucket →
         sublist bucket STUB_UPDATES ∧ ∀ u, u ∈ bucket → impact_level u = k)
    ∧ concat (omap (λ k, buckets !! k) IMPACT_LEVELS) ≡ₚ STUB_UPDATES.
Proof.
  assert (Forall recognized STUB_UPDATES) as H
    by (repeat constructor; by apply (bool_decide_unpack _)).
  split; [exact H|]. exact (group_updates_by_impact_partition STUB_UPDATES H).
Defined.

(** C5. [group_updates_by_impact] returns buckets exactly when every
    record's impact level is one of CRITICAL, HIGH, MEDIUM and LOW: under
    that precondition it raises nothing, and otherwise it raises the
    [KeyError] of a level that has no bucket, as it does on a record of
    level UNKNOWN. *)
Theorem group_updates_by_impact_total_iff :
  (∀ updates, Forall recognized updates →
     ∃ buckets, group_updates_by_impact updates = Ok buckets)
  ∧ (∀ updates, ¬ Forall recognized updates →
       ∃ k, (k ∉ IMPACT_LEVELS)
            ∧ group_updates_by_impact updates = Raise (KeyError k))
  ∧ (∃ updates, group_updates_by_impact updates = Raise (KeyError "UNKNOWN")).
Proof.
  split; [|split].
  - intros updates Hus.
    destruct (group_updates_ok updates Hus) as (b & Hrun & _). by exists b.
  - intros updates Hus. by apply group_loop_fail; [apply empty_buckets_levels|].
  - exists [{| id := 4; country := "Canada"; regulation_name := "R";
               reference_number := "N"; authority := "A"; summary := "S";
               key_changes := []; effective_date := "d"; compliance_deadline := "c";
               transition_period := "t"; applicable := true;
               impact_level := "UNKNOWN"; harmonization := [];
               affected_products := []; rationale := "r" |}].
    reflexivity.
Qed.

(** ** The renderer *)

Lemma shown_rationale_default rationales u :
  default (rationale u) (rationales !! id u) = shown_rationale rationales u.
Proof. unfold shown_rationale. by destruct (rationales !! id u). Qed.

Lemma shown_affected_default affected u :
  default (join ", " (affected_products u)) (affected !! id u)
  = shown_affected affected u.
Proof. unfold shown_affected. by destruct (affected !! id u). Qed.

Lemma foldl_append {A B} (f : A → B) (l : list A) : ∀ els,
  foldl (λ els x, els ++ [f x]) els l = els ++ map f l.
Proof.
  induction l as [|x l IH]; intros els; simpl.
  - by rewrite app_nil_r.
  - by rewrite IH, <- app_assoc.
Qed.

(** The loop body appends the record's block to [elements]. *)
Lemma render_update_block rationales affected els u :
  render_update rationales affected els u
  = els ++ record_block u (shown_rationale rationales u) (shown_affected affected u).
Proof.
  unfold render_update, record_block.
  rewrite foldl_append, shown_rationale_default, shown_affected_default.
  by rewrite <- !app_assoc.
Qed.

Lemma foldl_render_update rationales affected us : ∀ els,
  foldl (render_update rationales affected) els us
  = els ++ concat (map (λ u, record_block u (shown_rationale rationales u)
                                           (shown_affected affected u)) us).
Proof.
  induction us as [|u us IH]; intros els; simpl.
  - by rewrite app_nil_r.
  - by rewrite IH, render_update_block, <- app_assoc.
Qed.

Lemma render_section_flowables rationales affected buckets els impact title bucket :
  buckets !! impact = Some bucket →
  render_section rationales affected buckets els (impact, title)
  = Ok (els ++ section_flowables rationales affected title bucket).
Proof.
  intros Hb. unfold render_section, getitem, section_flowables. rewrite Hb. simpl.
  destruct bucket as [|u us].
  - by rewrite <- app_assoc.
  - rewrite foldl_render_update. by rewrite <- !app_assoc.
Qed.

Lemma render_sections rationales affected updates buckets secs : ∀ els,
  (∀ k, k ∈ IMPACT_LEVELS → buckets !! k = Some (of_level k updates)) →
  Forall (λ sec, sec.1 ∈ IMPACT_LEVELS) secs →
  for_each (render_section rationales affected buckets) els secs
  = Ok (els ++ concat (map (λ sec, section_flowables rationales affected sec.2
                                     (of_level sec.1 updates)) secs)).
Proof.
  intros els Hlook Hsecs. revert els.
  induction Hsecs as [|[impact title] secs Hk _ IH]; intros els.
  - simpl. by rewrite app_nil_r.
  - simpl in Hk. cbn [for_each].
    rewrite (render_section_flowables _ _ _ _ _ _ _ (Hlook _ Hk)).
    cbn [mbind result_bind map concat fst snd]. by rewrite IH, <- app_assoc.
Qed.

Lemma impact_sections_levels : Forall (λ sec, sec.1 ∈ IMPACT_LEVELS) impact_sections.
Proof. unfold impact_sections, IMPACT_LEVELS. repeat constructor; set_solver. Qed.

(** The document of a list of records with recognized levels: the title
    block, then the four sections. *)
Lemma generate_pdf_elements_ok now updates rationales affected :
  Forall recognized updates →
  generate_pdf_elements now updates rationales affected
  = Ok (header now
        ++ concat (map (λ sec, section_flowables rationales affected sec.2
                                 (of_level sec.1 updates)) impact_sections)).
Proof.
  intros Hus. unfold generate_pdf_elements.
  destruct (group_updates_ok updates Hus) as (b & -> & _ & Hlook).
  cbn [mbind result_bind].
  by apply render_sections, impact_sections_levels.
Qed.

(** The renderer returns a document only for records with recognized levels. *)
Lemma generate_pdf_elements_recognized now updates rationales affected els :
  generate_pdf_elements now updates rationales affected = Ok els →
  Forall recognized updates.
Proof.
  intros Hgen. destruct (decide (Forall recognized updates)) as [|Hn]; [done|].
  destruct (group_loop_fail updates _ empty_buckets_levels Hn) as (k & _ & Hrun).
  unfold generate_pdf_elements, group_updates_by_impact in Hgen.
  by rewrite Hrun in Hgen.
Qed.

Lemma concat_map_split {A B} (f : A → list B) (x : A) (l : list A) :
  x ∈ l → ∃ pre post, concat (map f l) = pre ++ f x ++ post.
Proof.
  intros (l1 & l2 & ->)%list_elem_of_split.
  exists (concat (map f l1)), (concat (map f l2)).
  by rewrite map_app, concat_app.
Qed.

Lemma impact_sections_title k :
  k ∈ IMPACT_LEVELS → ∃ title, (k, title) ∈ impact_sections.
Proof.
  unfold IMPACT_LEVELS, impact_sections. intros Hk.
  repeat (apply elem_of_cons in Hk as [->|Hk];
          [eexists; apply list_elem_of_In; simpl;
           repeat first [left; reflexivity | right]|]).
  by apply elem_of_nil in Hk.
Qed.

(** C1. In the document rendered for the records [updates], every record
    has its block, and the block shows: for the rationale, the value of the
    rationale edit map at the record's identifier when the identifier is a
    key of that map, and the record's own rationale otherwise; for the
    affected products, the value of the affected-products edit map when the
    identifier is a key of it, and otherwise the record's list of affected
    products joined with ", ". *)
Theorem generate_pdf_uses_edit_maps (now : datetime) (updates : list update)
    (rationales affected : gmap Z string) (els : list flowable) :
  generate_pdf_elements now updates rationales affected = Ok els →
  ∀ u, u ∈ updates →
    ∃ r a pre post,
      els = pre ++ record_block u r a ++ post
      ∧ (∀ edited, rationales !! id u = Some edited → r = edited)
      ∧ (rationales !! id u = None → r = rationale u)
      ∧ (∀ edited, affected !! id u = Some edited → a = edited)
      ∧ (affected !! id u = None → a = join ", " (affected_products u)).
Proof.
  intros Hgen u Hu.
  pose proof (generate_pdf_elements_recognized _ _ _ _ _ Hgen) as Hus.
  assert (els = header now
            ++ concat (map (λ sec, section_flowables rationales affected sec.2
                                     (of_level sec.1 updates)) impact_sections))
    as -> by (rewrite (generate_pdf_elements_ok _ _ _ _ Hus) in Hgen; congruence).
  clear Hgen.
  exists (shown_rationale rationales u), (shown_affected affected u).
  assert (recognized u) as Hk by (by eapply Forall_forall in Hus).
  destruct (impact_sections_title _ Hk) as [title Htitle].
  destruct (concat_map_split
              (λ sec, section_flowables rationales affected sec.2
                        (of_level sec.1 updates)) _ _ Htitle)
    as (pre & post & ->).
  assert (u ∈ of_level (impact_level u) updates) as Hin
    by (unfold of_level; by apply list_elem_of_filter).
  cbn beta. cbn [fst snd]. unfold section_flowables.
  destruct (of_level (impact_level u) updates) as [|u0 bucket] eqn:Hbucket;
    [by apply elem_of_nil in Hin|].
  destruct (concat_map_split
              (λ u, record_block u (shown_rationale rationales u)
                      (shown_affected affected u)) _ _ Hin)
    as (pre' & post' & ->).
  exists (header now ++ pre ++ [Paragraph title styleH2; Spacer 1 15] ++ pre'),
         (post' ++ [PageBreak] ++ post).
  split; [by rewrite <- !app_assoc|].
  unfold shown_rationale, shown_affected.
  repeat split.
  - by intros edited ->.
  - by intros ->.
  - by intros edited ->.
  - by intros ->.
Qed.

Lemma generate_pdf_uses_edit_maps_witness :
  ∃ els,
    generate_pdf_elements sample_now STUB_UPDATES ∅ shield_edit = Ok els
    ∧ ∀ u, u ∈ STUB_UPDATES →
        ∃ r a pre post,
          els = pre ++ record_block u r a ++ post
          ∧ (∀ edited, (∅ : gmap Z string) !! id u = Some edited → r = edited)
          ∧ ((∅ : gmap Z string) !! id u = None → r = rationale u)
          ∧ (∀ edited, shield_edit !! id u = Some edited → a = edited)
          ∧ (shield_edit !! id u = None → a = join ", " (affected_products u)).
Proof.
  eexists. split; [vm_compute; reflexivity|].
  apply (generate_pdf_uses_edit_maps sample_now STUB_UPDATES ∅ shield_edit).
  vm_compute. reflexivity.
Defined.

(** *** Sections and page breaks *)








Lemma stub_updates_recognized : Forall recognized STUB_UPDATES.
Proof. repeat constructor; by apply (bool_decide_unpack _). Qed.




(** ** The workflow *)

Example format_2f_elapsed : format_2f 1503211 = "1.50".
Proof. reflexivity. Qed.

Example strftime_hms_sample : strftime_hms sample_now = "09:05:07".
Proof. reflexivity. Qed.

Example strftime_ymd_hm_sample : strftime_ymd_hm sample_now = "2025-12-01 09:05".
Proof. reflexivity. Qed.

Section Workflow.

Variable doc_build : list flowable → list Byte.byte.

Lemma run_script_idle ev e fault s :
  state s = "Idle" →
  run_script doc_build ev e fault (Some s)
  = if button ev "Run Analysis"
    then (set_error ErrNone (set_state "Running" s), Rerun)
    else (s, Finished None).
Proof. intros H. unfold run_script, session_init. by rewrite H. Qed.

Lemma run_script_running ev e fault s :
  state s = "Running" →
  run_script doc_build ev e fault (Some s) = running_branch e fault s.
Proof. intros H. unfold run_script, session_init. by rewrite H. Qed.

Lemma run_script_complete ev e fault s :
  state s = "Complete" →
  run_script doc_build ev e fault (Some s) = complete_branch doc_build ev e s.
Proof. intros H. unfold run_script, session_init. by rewrite H. Qed.

Lemma run_script_failure ev e fault s :
  state s = "Failure" →
  run_script doc_build ev e fault (Some s)
  = if button ev "Retry"
    then (set_error ErrNone (set_state "Idle" s), Rerun)
    else (s, Finished None).
Proof. intros H. unfold run_script, session_init. by rewrite H. Qed.

(** *** The [try] body *)

Lemma exec_try_no_fault stmts : ∀ k f,
  exec_try k stmts None f = (run_stmts stmts f, None).
Proof. induction stmts as [|stmt stmts IH]; intros k f; simpl; [done|apply IH]. Qed.

Lemma exec_try_fault stmts : ∀ k f pos ex,
  k ≤ pos → pos ≤ k + length stmts →
  exec_try k stmts (Some (pos, ex)) f
  = (run_stmts (take (pos - k) stmts) f, Some ex).
Proof.
  induction stmts as [|stmt stmts IH]; intros k f pos ex Hk Hpos; simpl in *.
  - assert (pos = k) as -> by lia. rewrite bool_decide_true by done.
    by rewrite Nat.sub_diag.
  - case_bool_decide as Heq.
    + subst pos. by rewrite Nat.sub_diag.
    + rewrite IH by lia. replace (pos - k) with (S (pos - S k)) by lia. done.
Qed.

Lemma exec_try_late stmts : ∀ k f pos ex,
  k + length stmts < pos →
  exec_try k stmts (Some (pos, ex)) f = (run_stmts stmts f, None).
Proof.
  induction stmts as [|stmt stmts IH]; intros k f pos ex Hpos; simpl in *.
  - by rewrite bool_decide_false by lia.
  - rewrite bool_decide_false by lia. apply IH. lia.
Qed.

(** The statements only append to the log, and leave the edit maps. *)
Lemma try_body_frame e n s l :
  let s' := (run_stmts (take n (try_body e)) (s, l)).1 in
  (∃ lines, logs s' = logs s ++ lines)
  ∧ rationales s' = rationales s ∧ affected s' = affected s.
Proof.
  do 13 (try destruct n as [|n]); simpl;
    (split; [|done]); try (by exists []; rewrite app_nil_r);
    rewrite <- ?app_assoc; by eexists.
Qed.

(** Before the failure hook, they leave the results too. *)
Lemma try_body_before_hook e n s l :
  n ≤ FAILURE_HOOK →
  results (run_stmts (take n (try_body e)) (s, l)).1 = results s.
Proof.
  unfold FAILURE_HOOK. intros Hn.
  do 8 (try destruct n as [|n]); try done. lia.
Qed.

Lemma try_body_complete e s l :
  (run_stmts (try_body e) (s, l)).1
  = {| state := "Complete";
       results := Some STUB_UPDATES;
       rationales := rationales s;
       affected := affected s;
       logs := logs s
         ++ [ "Ingestion started at " +:+ strftime_hms (now e 0);
              "Parsing started at " +:+ strftime_hms (now e 1);
              "Classification started at " +:+ strftime_hms (now e 2);
              "Analysis complete in " +:+ format_2f (time e 1 - time e 0)
                +:+ " seconds." ];
       error := ErrNone |}.
Proof.
  unfold run_stmts, try_body, append_log, set_logs, set_state, set_error,
    set_results. simpl. by rewrite <- !app_assoc.
Qed.

Lemma running_branch_fault e pos ex s :
  pos ≤ length (try_body e) →
  running_branch e (Some (pos, ex)) s
  = (set_state "Failure"
       (set_error (ErrMsg (str_exn ex))
          (append_log ("Error: " +:+ str_exn ex)
             (run_stmts (take pos (try_body e)) (s, {| t0 := 0; t1 := 0 |})).1)),
     Rerun).
Proof.
  intros Hpos. unfold running_branch.
  rewrite exec_try_fault by lia. rewrite Nat.sub_0_r.
  by destruct (run_stmts _ _).
Qed.

Lemma running_branch_complete e fault s :
  fault = None ∨ (∃ pos ex, fault = Some (pos, ex) ∧ length (try_body e) < pos) →
  running_branch e fault s
  = ((run_stmts (try_body e) (s, {| t0 := 0; t1 := 0 |})).1, Rerun).
Proof.
  intros [->|(pos & ex & -> & Hpos)]; unfold running_branch.
  - rewrite exec_try_no_fault. by destruct (run_stmts _ _).
  - rewrite exec_try_late by (simpl in *; lia). by destruct (run_stmts _ _).
Qed.

(** C6. In the Running state, an exception raised at any place of the
    [try] body, by any statement of it, is caught: the run of the script
    ends in a rerun, not in an escaped exception; the session is then in
    the Failure state, its error is the exception's string, and its log
    is the log so far followed by the line "Error: " and that string. *)
Theorem running_exception_caught (ev : event) (e : env) (s : session)
    (pos : nat) (ex : exn) :
  state s = "Running" →
  pos ≤ length (try_body e) →
  ∃ s' lines,
    run_script doc_build ev e (Some (pos, ex)) (Some s) = (s', Rerun)
    ∧ state s' = "Failure"
    ∧ error s' = ErrMsg (str_exn ex)
    ∧ error_string s' = Some (str_exn ex)
    ∧ logs s' = logs s ++ lines ++ ["Error: " +:+ str_exn ex].
Proof.
  intros Hstate Hpos.
  destruct (try_body_frame e pos s {| t0 := 0; t1 := 0 |}) as [[lines Hlines] _].
  eexists _, lines. rewrite run_script_running by done.
  rewrite running_branch_fault by done. split; [done|].
  repeat split. simpl. by rewrite Hlines, <- app_assoc.
Qed.

(** C8. One run of the script in the Running state ends in the Complete
    or in the Failure state, whatever is clicked and whatever is raised;
    when nothing is raised it ends in Complete, with the seeded records
    as results and, after the three lines of the pipeline, the log line
    "Analysis complete in ... seconds." of the elapsed time. *)
Theorem running_step (ev : event) (e : env) (fault : option (nat * exn))
    (s : session) :
  state s = "Running" →
  let s' := (run_script doc_build ev e fault (Some s)).1 in
  (state s' = "Complete" ∨ state s' = "Failure")
  ∧ (fault = None →
       run_script doc_build ev e fault (Some s) = (s', Rerun)
       ∧ state s' = "Complete"
       ∧ results s' = Some STUB_UPDATES
       ∧ error s' = ErrNone
       ∧ logs s' = logs s
           ++ [ "Ingestion started at " +:+ strftime_hms (now e 0);
                "Parsing started at " +:+ strftime_hms (now e 1);
                "Classification started at " +:+ strftime_hms (now e 2);
                "Analysis complete in " +:+ format_2f (time e 1 - time e 0)
                  +:+ " seconds." ]).
Proof.
  intros Hstate s'. unfold s'. rewrite run_script_running by done. split.
  - destruct fault as [[pos ex]|].
    + destruct (decide (pos ≤ length (try_body e))) as [Hpos|Hpos].
      * right. by rewrite running_branch_fault.
      * left. rewrite running_branch_complete by (right; exists pos, ex; split; [done|lia]).
        cbn [fst]. by rewrite try_body_complete.
    + left. rewrite running_branch_complete by (by left).
      cbn [fst]. by rewrite try_body_complete.
  - intros ->. rewrite running_branch_complete by (by left).
    cbn [fst]. by rewrite try_body_complete.
Qed.

(** C10. "Retry" in the Failure state sets the state to Idle and the
    error to [None], and ends in a rerun; the log, the results and the
    two edit maps are as they were. *)
Theorem retry_frame (e : env) (fault : option (nat * exn)) (s : session) :
  state s = "Failure" →
  ∃ s',
    run_script doc_build (Click "Retry") e fault (Some s) = (s', Rerun)
    ∧ state s' = "Idle"
    ∧ error s' = ErrNone
    ∧ logs s' = logs s
    ∧ results s' = results s
    ∧ rationales s' = rationales s
    ∧ affected s' = affected s.
Proof.
  intros Hstate. eexists. rewrite run_script_failure by done.
  split; [reflexivity|]. by repeat split.
Qed.

End Workflow.

Section Invariant.

Variable doc_build : list flowable → list Byte.byte.

(** *** The Complete branch *)

Lemma store_card_frame e s u :
  let s' := store_card e s u in
  state s' = state s ∧ results s' = results s
  ∧ logs s' = logs s ∧ error s' = error s.
Proof. done. Qed.

Lemma store_cards_frame e bucket : ∀ s,
  let s' := foldl (store_card e) s bucket in
  state s' = state s ∧ results s' = results s
  ∧ logs s' = logs s ∧ error s' = error s.
Proof.
  induction bucket as [|u bucket IH]; intros s; [done|].
  simpl. destruct (IH (store_card e s u)) as (-> & -> & -> & ->). done.
Qed.

Lemma show_levels_frame e buckets levels : ∀ s,
  Forall (λ k, is_Some (buckets !! k)) levels →
  ∃ s', for_each (show_level e buckets) s levels = Ok s'
        ∧ state s' = state s ∧ results s' = results s
        ∧ logs s' = logs s ∧ error s' = error s.
Proof.
  intros s Hlevels. revert s.
  induction Hlevels as [|k levels [bucket Hk] _ IH]; intros s.
  - by exists s.
  - cbn [for_each].
    assert (show_level e buckets s k = Ok (foldl (store_card e) s bucket)) as ->
      by (unfold show_level, getitem; by rewrite Hk).
    cbn [mbind result_bind].
    destruct (IH (foldl (store_card e) s bucket)) as (s' & -> & Hs').
    exists s'. split; [done|].
    destruct (store_cards_frame e bucket s) as (<- & <- & <- & <-). done.
Qed.

(** A run of the Complete branch on results with recognized levels:
    "Reset" leaves the reset session; any other run leaves the state,
    the results and the error as they were. *)
Lemma complete_branch_spec ev e s updates :
  results s = Some updates → Forall recognized updates →
  ∃ s' pdf,
    state s' = state s ∧ results s' = results s ∧ error s' = error s
    ∧ complete_branch doc_build ev e s
      = if button ev "Reset" then (reset_session, Rerun)
        else (s', Finished pdf).
Proof.
  intros Hres Hus. unfold complete_branch. rewrite Hres.
  destruct (group_updates_ok updates Hus) as (buckets & -> & Hlevels & _).
  destruct (show_levels_frame e buckets IMPACT_LEVELS s)
    as (s1 & -> & Hstate & Hresults & Hlogs & Herror).
  { apply Forall_forall. intros k Hk. by apply Hlevels. }
  destruct (button ev "Download PDF").
  - unfold generate_pdf.
    rewrite (generate_pdf_elements_ok _ _ _ _ Hus). cbn [mbind result_bind].
    eexists (append_log _ s1), _.
    split; [exact Hstate|]. split; [cbn; congruence|]. split; [exact Herror|].
    by destruct (button ev "Reset").
  - exists s1, None.
    split; [exact Hstate|]. split; [cbn; congruence|]. split; [exact Herror|].
    by destruct (button ev "Reset").
Qed.

Lemma step_invariant s s' :
  workflow_invariant s → step doc_build s s' → workflow_invariant s'.
Proof.
  intros Hinv (ev & e & fault & Hfault & <-).
  destruct Hinv as [(Hst & Hres & Herr)|[(Hst & Hres & Herr)
                   |[(Hst & Hres & Herr)|(Hst & Hres & msg & Herr)]]].
  - rewrite run_script_idle by done. destruct (button ev "Run Analysis").
    + right; left. done.
    + left. done.
  - rewrite run_script_running by done.
    destruct fault as [[pos ex]|].
    + assert (pos ≤ length (try_body e)) as Hpos
        by (unfold pipeline_fault, FAILURE_HOOK in Hfault; simpl; lia).
      rewrite running_branch_fault by done.
      do 3 right. split; [done|]. split; [|by eexists].
      cbn. etrans; [by apply try_body_before_hook|done].
    + rewrite running_branch_complete by (by left).
      right; right; left. cbn [fst]. by rewrite try_body_complete.
  - rewrite run_script_complete by done.
    destruct (complete_branch_spec ev e s STUB_UPDATES Hres stub_updates_recognized)
      as (s1 & pdf & Hst1 & Hres1 & Herr1 & ->).
    destruct (button ev "Reset").
    + left. done.
    + right; right; left. cbn [fst]. by rewrite Hst1, Hres1, Herr1.
  - rewrite run_script_failure by done. destruct (button ev "Retry").
    + left. done.
    + do 3 right. cbn [fst]. split; [done|]. split; [done|]. by exists msg.
Qed.

Lemma reachable_invariant s : reachable doc_build s → workflow_invariant s.
Proof.
  induction 1 as [|s s' _ IH Hstep].
  - left. done.
  - by eapply step_invariant.
Qed.

(** C9. In a reachable session in the Complete state, "Reset" ends in a
    rerun with the session in the Idle state and every field as in a
    fresh session: no results, both edit maps empty, an empty log, and
    no error string. In the Idle and Failure states a click on "Reset"
    changes nothing. *)
Theorem reset_restores_session (e : env) (fault : option (nat * exn))
    (s : session) :
  reachable doc_build s →
  (state s = "Complete" →
     ∃ s',
       run_script doc_build (Click "Reset") e fault (Some s) = (s', Rerun)
       ∧ state s' = "Idle"
       ∧ results s' = None
       ∧ rationales s' = ∅
       ∧ affected s' = ∅
       ∧ logs s' = []
       ∧ error s' = ErrNone
       ∧ state s' = state fresh_session
       ∧ results s' = results fresh_session
       ∧ rationales s' = rationales fresh_session
       ∧ affected s' = affected fresh_session
       ∧ logs s' = logs fresh_session
       ∧ error_string s' = error_string fresh_session)
  ∧ (state s = "Idle" ∨ state s = "Failure" →
       run_script doc_build (Click "Reset") e fault (Some s) = (s, Finished None)).
Proof.
  intros Hreach. split.
  - intros Hstate. exists reset_session.
    rewrite run_script_complete by done.
    destruct (reachable_invariant s Hreach)
      as [(Hst & _)|[(Hst & _)|[(_ & Hres & _)|(Hst & _)]]];
      try (by rewrite Hstate in Hst).
    destruct (complete_branch_spec (Click "Reset") e s STUB_UPDATES Hres
                stub_updates_recognized) as (s1 & pdf & _ & _ & _ & ->).
    done.
  - intros [Hstate|Hstate].
    + by rewrite run_script_idle.
    + by rewrite run_script_failure.
Qed.

End Invariant.

(** ** The seeded records *)

(** One record in each of CRITICAL, HIGH and LOW, none in MEDIUM. *)
Example seeded_bucket_counts :
  ∃ buckets,
    group_updates_by_impact STUB_UPDATES = Ok buckets
    ∧ map (λ k, length <$> buckets !! k) IMPACT_LEVELS
      = [Some 1; Some 1; Some 0; Some 1].
Proof. eexists. split; reflexivity. Qed.

(** With the affected products of record 1 edited to "Shield", its block
    shows "Shield" and the block of record 2 its own "Guardant Reveal". *)
Example shield_scenario :
  ∃ els,
    generate_pdf_elements sample_now STUB_UPDATES ∅ shield_edit = Ok els
    ∧ Paragraph "- <b>Affected Products or Operations</b>: Shield" styleN ∈ els
    ∧ Paragraph "- <b>Affected Products or Operations</b>: Guardant Reveal" styleN ∈ els.
Proof.
  eexists. split; [vm_compute; reflexivity|].
  split; apply (bool_decide_unpack _); vm_compute; reflexivity.
Qed.

(** An exception raised after the results are stored (here just before
    [t1] is read) is caught like any other, and leaves the stored results
    in the Failure state. *)
Example fault_after_results_keeps_them :
  let s' := (run_script outline_build NoEvent still_env
               (Some (S FAILURE_HOOK, Exception "late"))
               (Some running_session)).1 in
  state s' = "Failure" ∧ results s' = Some STUB_UPDATES.
Proof. split; reflexivity. Qed.

(** ** The theorems at the seeded session *)

Lemma running_reachable : reachable outline_build running_session.
Proof.
  apply (reachable_step outline_build fresh_session); [constructor|].
  exists (Click "Run Analysis"), still_env, None. by split.
Qed.

Lemma completed_reachable : reachable outline_build completed_session.
Proof.
  apply (reachable_step outline_build running_session); [apply running_reachable|].
  exists NoEvent, still_env, None. by split.
Qed.

Lemma running_exception_caught_witness :
  state running_session = "Running"
  ∧ FAILURE_HOOK ≤ length (try_body still_env)
  ∧ ∃ s' lines,
      run_script outline_build NoEvent still_env
        (Some (FAILURE_HOOK, Exception "Simulated analysis failure."))
        (Some running_session) = (s', Rerun)
      ∧ state s' = "Failure"
      ∧ error s' = ErrMsg (str_exn (Exception "Simulated analysis failure."))
      ∧ error_string s' = Some (str_exn (Exception "Simulated analysis failure."))
      ∧ logs s' = logs running_session ++ lines
                  ++ ["Error: " +:+ str_exn (Exception "Simulated analysis failure.")].
Proof.
  split; [reflexivity|]. split; [vm_compute; lia|].
  apply (running_exception_caught outline_build NoEvent still_env running_session
           FAILURE_HOOK (Exception "Simulated analysis failure."));
    [reflexivity|vm_compute; lia].
Defined.

Lemma running_step_witness :
  state running_session = "Running"
  ∧ let s' := (run_script outline_build NoEvent still_env None
                 (Some running_session)).1 in
    (state s' = "Complete" ∨ state s' = "Failure")
    ∧ (@None (nat * exn) = None →
         run_script outline_build NoEvent still_env None (Some running_session)
         = (s', Rerun)
         ∧ state s' = "Complete"
         ∧ results s' = Some STUB_UPDATES
         ∧ error s' = ErrNone
         ∧ logs s' = logs running_session
             ++ [ "Ingestion started at " +:+ strftime_hms (now still_env 0);
                  "Parsing started at " +:+ strftime_hms (now still_env 1);
                  "Classification started at " +:+ strftime_hms (now still_env 2);
                  "Analysis complete in "
                    +:+ format_2f (time still_env 1 - time still_env 0)
                    +:+ " seconds." ]).
Proof.
  split; [reflexivity|].
  apply (running_step outline_build NoEvent still_env None running_session).
  reflexivity.
Defined.

Lemma reset_restores_session_witness :
  reachable outline_build completed_session
  ∧ state completed_session = "Complete"
  ∧ ∃ s',
      run_script outline_build (Click "Reset") still_env None (Some completed_session)
      = (s', Rerun)
      ∧ s' = reset_session.
Proof.
  split; [exact completed_reachable|]. split; [reflexivity|].
  destruct (reset_restores_session outline_build still_env None completed_session
              completed_reachable) as [Hreset _].
  destruct (Hreset eq_refl)
    as (s' & Hrun & Hst & Hres & Hrat & Haff & Hlogs & Herr & _).
  exists s'. split; [exact Hrun|].
  destruct s'; simpl in *; subst; reflexivity.
Defined.

Lemma retry_frame_witness :
  state failed_session = "Failure"
  ∧ ∃ s',
      run_script outline_build (Click "Retry") still_env None (Some failed_session)
      = (s', Rerun)
      ∧ state s' = "Idle"
      ∧ error s' = ErrNone
      ∧ logs s' = logs failed_session
      ∧ results s' = results failed_session
      ∧ rationales s' = rationales failed_session
      ∧ affected s' = affected failed_session.
Proof.
  split; [reflexivity|].
  apply (retry_frame outline_build still_env None failed_session). reflexivity.
Defined.

(** * Further properties *)

(** ** Grouping and rendering on unrecognized levels *)

Lemma for_each_app {A S} (body : S → A → result S) (l1 l2 : list A) : ∀ s,
  for_each body s (l1 ++ l2) = (s' ← for_each body s l1; for_each body s' l2).
Proof.
  induction l1 as [|x l1 IH]; intros s; [done|].
  cbn [for_each app]. destruct (body s x) as [s'|ex]; [|done].
  cbn [mbind result_bind]. apply IH.
Qed.

(** Grouping stops at the first record whose level has no bucket. *)
Lemma group_first_unrecognized l1 u l2 :
  Forall recognized l1 → ¬ recognized u →
  group_updates_by_impact (l1 ++ u :: l2) = Raise (KeyError (impact_level u)).
Proof.
  intros Hl1 Hu. unfold group_updates_by_impact. rewrite for_each_app.
  destruct (group_loop_ok l1 _ empty_buckets_levels Hl1) as (b & -> & Hb & _).
  cbn [mbind result_bind for_each]. unfold bucket_append, getitem.
  destruct (b !! impact_level u) as [bucket|] eqn:Hlook; [|done].
  destruct Hu. apply Hb. by eexists.
Qed.

(** X1. When the records before [u] have recognized impact levels and [u]
    has not, grouping raises the [KeyError] of the level of [u], whatever
    follows [u]. *)
Theorem group_updates_by_impact_first_unrecognized
    (l1 : list update) (u : update) (l2 : list update) :
  Forall recognized l1 → ¬ recognized u →
  group_updates_by_impact (l1 ++ u :: l2) = Raise (KeyError (impact_level u)).
Proof. apply group_first_unrecognized. Qed.

Lemma group_updates_by_impact_first_unrecognized_witness :
  Forall recognized STUB_UPDATES ∧ ¬ recognized unknown_update
  ∧ group_updates_by_impact (STUB_UPDATES ++ unknown_update :: STUB_UPDATES)
    = Raise (KeyError (impact_level unknown_update)).
Proof.
  assert (¬ recognized unknown_update) as Hu
    by (by apply (bool_decide_unpack _)).
  split; [exact stub_updates_recognized|]. split; [exact Hu|].
  exact (group_updates_by_impact_first_unrecognized STUB_UPDATES unknown_update
           STUB_UPDATES stub_updates_recognized Hu).
Defined.

(** X2. [generate_pdf] returns nothing for such a list: the title block it
    has built is dropped and the [KeyError] of the first unrecognized
    level leaves the function. *)
Theorem generate_pdf_first_unrecognized
    (doc_build : list flowable → list Byte.byte) (now : datetime)
    (l1 : list update) (u : update) (l2 : list update)
    (rationales affected : gmap Z string) :
  Forall recognized l1 → ¬ recognized u →
  generate_pdf doc_build now (l1 ++ u :: l2) rationales affected
  = Raise (KeyError (impact_level u)).
Proof.
  intros Hl1 Hu. unfold generate_pdf, generate_pdf_elements.
  by rewrite (group_first_unrecognized l1 u l2 Hl1 Hu).
Qed.

Lemma generate_pdf_first_unrecognized_witness :
  Forall recognized STUB_UPDATES ∧ ¬ recognized unknown_update
  ∧ generate_pdf outline_build sample_now (STUB_UPDATES ++ unknown_update :: [])
      ∅ shield_edit
    = Raise (KeyError (impact_level unknown_update)).
Proof.
  assert (¬ recognized unknown_update) as Hu
    by (by apply (bool_decide_unpack _)).
  split; [exact stub_updates_recognized|]. split; [exact Hu|].
  exact (generate_pdf_first_unrecognized outline_build sample_now STUB_UPDATES
           unknown_update [] ∅ shield_edit stub_updates_recognized Hu).
Defined.

(** ** The edit maps and the document *)

Lemma section_flowables_agree r1 a1 r2 a2 title bucket :
  (∀ u, u ∈ bucket → r1 !! id u = r2 !! id u ∧ a1 !! id u = a2 !! id u) →
  section_flowables r1 a1 title bucket = section_flowables r2 a2 title bucket.
Proof.
  intros Hagree. unfold section_flowables. destruct bucket as [|u0 us]; [done|].
  do 3 f_equal. apply map_ext_in. intros u Hu%list_elem_of_In.
  destruct (Hagree u Hu) as [Hr Ha].
  unfold shown_rationale, shown_affected. by rewrite Hr, Ha.
Qed.

(** X3. The document depends on the edit maps only at the identifiers of
    the records: two pairs of edit maps that agree there give the same
    result, so entries left for other identifiers never show. *)
Theorem generate_pdf_elements_ignores_other_ids (now : datetime)
    (updates : list update) (r1 a1 r2 a2 : gmap Z string) :
  (∀ u, u ∈ updates → r1 !! id u = r2 !! id u ∧ a1 !! id u = a2 !! id u) →
  generate_pdf_elements now updates r1 a1 = generate_pdf_elements now updates r2 a2.
Proof.
  intros Hagree. destruct (decide (Forall recognized updates)) as [Hus|Hus].
  - rewrite !generate_pdf_elements_ok by done. do 2 f_equal.
    f_equal. apply map_ext_in. intros [impact title] _. cbn [fst snd].
    apply section_flowables_agree. intros u Hu. apply Hagree.
    unfold of_level in Hu. by apply list_elem_of_filter in Hu as [_ ?].
  - destruct (group_loop_fail updates _ empty_buckets_levels Hus) as (k & _ & Hrun).
    unfold generate_pdf_elements, group_updates_by_impact. by rewrite Hrun.
Qed.

Lemma generate_pdf_elements_ignores_other_ids_witness :
  (∀ u, u ∈ STUB_UPDATES →
     (∅ : gmap Z string) !! id u = ({[ 9%Z := "stale" ]} : gmap Z string) !! id u
     ∧ shield_edit !! id u = (<[ 9%Z := "stale" ]> shield_edit) !! id u)
  ∧ generate_pdf_elements sample_now STUB_UPDATES ∅ shield_edit
    = generate_pdf_elements sample_now STUB_UPDATES
        {[ 9%Z := "stale" ]} (<[ 9%Z := "stale" ]> shield_edit).
Proof.
  assert (∀ u, u ∈ STUB_UPDATES →
     (∅ : gmap Z string) !! id u = ({[ 9%Z := "stale" ]} : gmap Z string) !! id u
     ∧ shield_edit !! id u = (<[ 9%Z := "stale" ]> shield_edit) !! id u) as H.
  { intros u Hu. unfold STUB_UPDATES in Hu.
    repeat (apply elem_of_cons in Hu as [->|Hu]; [by split|]).
    by apply elem_of_nil in Hu. }
  split; [exact H|].
  exact (generate_pdf_elements_ignores_other_ids sample_now STUB_UPDATES
           ∅ shield_edit _ _ H).
Defined.

(** ** Page breaks *)







(** ** The branches of the script *)

Section Branches.

Variable doc_build : list flowable → list Byte.byte.

Lemma button_true ev label : button ev label = true ↔ ev = Click label.
Proof.
  destruct ev as [|l]; simpl; [done|].
  rewrite bool_decide_eq_true. split; [by intros ->|by intros [= ->]].
Qed.

Lemma run_script_other ev e fault s :
  state s ∉ ["Idle"; "Running"; "Complete"; "Failure"] →
  run_script doc_build ev e fault (Some s)
  = if button ev "Retry" then (set_state "Idle" s, Rerun) else (s, Finished None).
Proof.
  intros Hstate. unfold run_script, session_init.
  rewrite !decide_False by set_solver. done.
Qed.

(** X5. In the Idle state only "Run Analysis" acts: it sets the state to
    Running and the error to [None], leaves the results, the edit maps and
    the log, and ends in a rerun; any other run leaves the session as it
    is. *)
Theorem idle_only_run_analysis (ev : event) (e : env)
    (fault : option (nat * exn)) (s : session) :
  state s = "Idle" →
  (ev ≠ Click "Run Analysis" →
     run_script doc_build ev e fault (Some s) = (s, Finished None))
  ∧ ∃ s',
      run_script doc_build (Click "Run Analysis") e fault (Some s) = (s', Rerun)
      ∧ state s' = "Running" ∧ error s' = ErrNone
      ∧ results s' = results s ∧ rationales s' = rationales s
      ∧ affected s' = affected s ∧ logs s' = logs s.
Proof.
  intros Hstate. rewrite !run_script_idle by done. split.
  - intros Hev. destruct (button ev "Run Analysis") eqn:Hb; [|done].
    by apply button_true in Hb.
  - by eexists.
Qed.

(** X6. In a state that is none of the four, "Retry" sets the state to
    Idle and ends in a rerun, and leaves every other entry, the error and
    the results among them; any other run leaves the session as it is. *)
Theorem unrecognized_state_retry (ev : event) (e : env)
    (fault : option (nat * exn)) (s : session) :
  state s ∉ ["Idle"; "Running"; "Complete"; "Failure"] →
  (ev ≠ Click "Retry" →
     run_script doc_build ev e fault (Some s) = (s, Finished None))
  ∧ ∃ s',
      run_script doc_build (Click "Retry") e fault (Some s) = (s', Rerun)
      ∧ state s' = "Idle" ∧ error s' = error s
      ∧ results s' = results s ∧ rationales s' = rationales s
      ∧ affected s' = affected s ∧ logs s' = logs s.
Proof.
  intros Hstate. rewrite !run_script_other by done. split.
  - intros Hev. destruct (button ev "Retry") eqn:Hb; [|done].
    by apply button_true in Hb.
  - by eexists.
Qed.

(** *** The cards of the Complete branch *)

Lemma show_levels_cards e updates buckets levels : ∀ s,
  (∀ k, k ∈ IMPACT_LEVELS → buckets !! k = Some (of_level k updates)) →
  Forall (λ k, k ∈ IMPACT_LEVELS) levels →
  for_each (show_level e buckets) s levels
  = Ok (foldl (store_card e) s (concat (map (λ k, of_level k updates) levels))).
Proof.
  intros s Hlook Hlevels. revert s.
  induction Hlevels as [|k levels Hk _ IH]; intros s; [done|].
  cbn [for_each map concat].
  assert (show_level e buckets s k = Ok (foldl (store_card e) s (of_level k updates)))
    as -> by (unfold show_level, getitem; by rewrite (Hlook k Hk)).
  cbn [mbind result_bind]. by rewrite IH, foldl_app.
Qed.

Lemma shown_order_permutation updates :
  Forall recognized updates → shown_order updates ≡ₚ updates.
Proof.
  intros Hus. unfold shown_order, IMPACT_LEVELS. cbn [map concat].
  rewrite app_nil_r. by apply of_levels_permutation.
Qed.

(** After the cards of records with distinct identifiers, each edit map
    holds at a record's identifier what the record's card returned, and
    is as before elsewhere. *)
Lemma store_cards_lookup e l : ∀ s,
  NoDup (id <$> l) →
  let s' := foldl (store_card e) s l in
  (∀ u, u ∈ l →
     rationales s' !! id u = Some (render_update_card e u).1
     ∧ affected s' !! id u = Some (render_update_card e u).2)
  ∧ (∀ k, k ∉ id <$> l →
       rationales s' !! k = rationales s !! k
       ∧ affected s' !! k = affected s !! k).
Proof.
  induction l as [|u0 l IH]; intros s Hnd; cbn [foldl].
  - split; [intros u Hu; by apply elem_of_nil in Hu|done].
  - rewrite fmap_cons in Hnd. apply NoDup_cons in Hnd as [Hu0 Hnd].
    destruct (IH (store_card e s u0) Hnd) as [Hin Hout]. split.
    + intros u [->|Hu]%elem_of_cons; [|by apply Hin].
      destruct (Hout _ Hu0) as [-> ->]. unfold store_card. cbn.
      by rewrite !lookup_insert_eq.
    + intros k Hk. rewrite fmap_cons in Hk.
      apply not_elem_of_cons in Hk as [Hne Hk].
      destruct (Hout _ Hk) as [-> ->]. unfold store_card. cbn.
      by rewrite !lookup_insert_ne.
Qed.

(** The Complete branch on results with recognized levels, in closed form. *)
Lemma complete_branch_closed ev e s updates :
  results s = Some updates → Forall recognized updates →
  let s1 := cards_session e s updates in
  let els :=
    header (now e 0)
    ++ concat (map (λ sec, section_flowables (rationales s1) (affected s1) sec.2
                             (of_level sec.1 updates)) impact_sections) in
  complete_branch doc_build ev e s
  = if button ev "Download PDF" then
      if button ev "Reset" then (reset_session, Rerun)
      else (append_log ("PDF rendered in " +:+ format_2f (time e 1 - time e 0)
                        +:+ " seconds.") s1,
            Finished (Some (doc_build els)))
    else
      if button ev "Reset" then (reset_session, Rerun)
      else (s1, Finished None).
Proof.
  intros Hres Hus s1 els. unfold complete_branch. rewrite Hres.
  destruct (group_updates_ok updates Hus) as (buckets & -> & _ & Hlook).
  rewrite (show_levels_cards e updates buckets IMPACT_LEVELS s Hlook)
    by (by apply Forall_forall).
  fold (cards_session e s updates). fold (shown_order updates).
  fold (cards_session e s updates). fold s1.
  unfold generate_pdf. rewrite (generate_pdf_elements_ok _ _ _ _ Hus).
  cbn [mbind result_bind]. fold els.
  by destruct (button ev "Download PDF"), (button ev "Reset").
Qed.

(** X7. A run of the Complete branch other than a "Reset", on results
    with recognized levels and distinct identifiers, leaves in the two
    edit maps, at each record's identifier, the text of the record's two
    widgets: what the user left there, or the record's own rationale and
    its affected products joined with ", ". Entries at other identifiers
    stay. *)
Theorem complete_run_stores_cards (ev : event) (e : env)
    (fault : option (nat * exn)) (s : session) (updates : list update) :
  state s = "Complete" → results s = Some updates →
  Forall recognized updates → NoDup (id <$> updates) →
  ev ≠ Click "Reset" →
  let s' := (run_script doc_build ev e fault (Some s)).1 in
  (∀ u, u ∈ updates →
     rationales s' !! id u
     = Some (text_widget e ("rationale_" +:+ pretty (id u)) (rationale u))
     ∧ affected s' !! id u
       = Some (text_widget e ("affected_" +:+ pretty (id u))
                 (join ", " (affected_products u))))
  ∧ (∀ k, k ∉ id <$> updates →
       rationales s' !! k = rationales s !! k
       ∧ affected s' !! k = affected s !! k).
Proof.
  intros Hstate Hres Hus Hnd Hev s'. unfold s'.
  rewrite run_script_complete by done.
  rewrite (complete_branch_closed ev e s updates Hres Hus).
  assert (button ev "Reset" = false) as ->.
  { destruct (button ev "Reset") eqn:Hb; [|done]. by apply button_true in Hb. }
  pose proof (shown_order_permutation updates Hus) as Hperm.
  assert (NoDup (id <$> shown_order updates)) as Hnd' by (by rewrite Hperm).
  destruct (store_cards_lookup e (shown_order updates) s Hnd') as [Hin Hout].
  fold (cards_session e s updates) in Hin, Hout.
  split.
  - intros u Hu. rewrite <- Hperm in Hu.
    destruct (button ev "Download PDF"); apply (Hin u Hu).
  - intros k Hk. rewrite <- Hperm in Hk.
    destruct (button ev "Download PDF"); apply (Hout k Hk).
Qed.

End Branches.

(** *** The branches at the seeded sessions *)

Lemma idle_only_run_analysis_witness :
  state fresh_session = "Idle"
  ∧ (Click "Reset" ≠ Click "Run Analysis" →
       run_script outline_build (Click "Reset") still_env None (Some fresh_session)
       = (fresh_session, Finished None))
  ∧ ∃ s',
      run_script outline_build (Click "Run Analysis") still_env None
        (Some fresh_session) = (s', Rerun)
      ∧ state s' = "Running" ∧ error s' = ErrNone
      ∧ results s' = results fresh_session
      ∧ rationales s' = rationales fresh_session
      ∧ affected s' = affected fresh_session ∧ logs s' = logs fresh_session.
Proof.
  split; [reflexivity|].
  apply (idle_only_run_analysis outline_build (Click "Reset") still_env None
           fresh_session).
  reflexivity.
Defined.

Lemma unrecognized_state_retry_witness :
  (state paused_session ∉ ["Idle"; "Running"; "Complete"; "Failure"])
  ∧ (NoEvent ≠ Click "Retry" →
       run_script outline_build NoEvent still_env None (Some paused_session)
       = (paused_session, Finished None))
  ∧ ∃ s',
      run_script outline_build (Click "Retry") still_env None (Some paused_session)
      = (s', Rerun)
      ∧ state s' = "Idle" ∧ error s' = error paused_session
      ∧ results s' = results paused_session
      ∧ rationales s' = rationales paused_session
      ∧ affected s' = affected paused_session ∧ logs s' = logs paused_session.
Proof.
  assert (state paused_session ∉ ["Idle"; "Running"; "Complete"; "Failure"]) as H
    by (by apply (bool_decide_unpack _)).
  split; [exact H|].
  exact (unrecognized_state_retry outline_build NoEvent still_env None
           paused_session H).
Defined.

Lemma complete_run_stores_cards_witness :
  state completed_session = "Complete"
  ∧ results completed_session = Some STUB_UPDATES
  ∧ Forall recognized STUB_UPDATES ∧ NoDup (id <$> STUB_UPDATES)
  ∧ NoEvent ≠ Click "Reset"
  ∧ let s' := (run_script outline_build NoEvent edited_env None
                 (Some completed_session)).1 in
    (∀ u, u ∈ STUB_UPDATES →
       rationales s' !! id u
       = Some (text_widget edited_env ("rationale_" +:+ pretty (id u)) (rationale u))
       ∧ affected s' !! id u
         = Some (text_widget edited_env ("affected_" +:+ pretty (id u))
                   (join ", " (affected_products u))))
    ∧ (∀ k, k ∉ id <$> STUB_UPDATES →
         rationales s' !! k = rationales completed_session !! k
         ∧ affected s' !! k = affected completed_session !! k).
Proof.
  assert (NoDup (id <$> STUB_UPDATES)) as Hnd by (by apply (bool_decide_unpack _)).
  assert (NoEvent ≠ Click "Reset") as Hev by discriminate.
  split; [reflexivity|]. split; [reflexivity|].
  split; [exact stub_updates_recognized|]. split; [exact Hnd|]. split; [exact Hev|].
  exact (complete_run_stores_cards outline_build NoEvent edited_env None
           completed_session STUB_UPDATES eq_refl eq_refl
           stub_updates_recognized Hnd Hev).
Defined.


(** ** Downloads, the log and reruns *)

Section Runs.

Variable doc_build : list flowable → list Byte.byte.



(** *** What every run keeps *)

Lemma show_levels_frame_any e buckets levels : ∀ s s',
  for_each (show_level e buckets) s levels = Ok s' →
  state s' = state s ∧ results s' = results s
  ∧ logs s' = logs s ∧ error s' = error s.
Proof.
  induction levels as [|k levels IH]; intros s s' Hrun; cbn [for_each] in Hrun.
  - by injection Hrun as <-.
  - destruct (show_level e buckets s k) as [s1|ex] eqn:Hk;
      cbn [mbind result_bind] in Hrun; [|done].
    unfold show_level, getitem in Hk.
    destruct (buckets !! k) as [bucket|]; cbn [mbind result_bind] in Hk; [|done].
    injection Hk as <-.
    destruct (IH _ _ Hrun) as (-> & -> & -> & ->).
    apply store_cards_frame.
Qed.

(** The Complete branch either resets, or ends without a rerun and keeps
    the state, the results, the error and the lines of the log. *)
Lemma complete_branch_frame ev e s :
  (ev = Click "Reset"
   ∧ complete_branch doc_build ev e s = (reset_session, Rerun))
  ∨ ((complete_branch doc_build ev e s).2 ≠ Rerun
     ∧ state (complete_branch doc_build ev e s).1 = state s
     ∧ results (complete_branch doc_build ev e s).1 = results s
     ∧ error (complete_branch doc_build ev e s).1 = error s
     ∧ logs s `prefix_of` logs (complete_branch doc_build ev e s).1).
Proof.
  unfold complete_branch.
  destruct (results s) as [updates|] eqn:Hres; [|right; by cbn].
  destruct (group_updates_by_impact updates) as [buckets|ex];
    [|right; by cbn].
  destruct (for_each _ s IMPACT_LEVELS) as [s1|ex] eqn:Hcards;
    [|right; by cbn].
  destruct (show_levels_frame_any _ _ _ _ _ Hcards) as (Hst & Hrs & Hlg & Her).
  rewrite Hres in Hrs.
  destruct (button ev "Download PDF").
  - destruct (generate_pdf _ _ _ _ _) as [pdf|ex].
    + destruct (button ev "Reset") eqn:Hb.
      * left. by apply button_true in Hb.
      * right. unfold append_log, set_logs. cbn [fst snd state results error logs].
        rewrite Hlg. repeat split; try done. by apply prefix_app_r.
    + right. cbn [fst snd]. by rewrite Hlg.
  - destruct (button ev "Reset") eqn:Hb.
    + left. by apply button_true in Hb.
    + right. cbn [fst snd]. by rewrite Hlg.
Qed.

(** The Running branch always ends in a rerun, in another state; it keeps
    the edit maps and the lines of the log. *)
Lemma running_branch_frame e fault s :
  state s = "Running" →
  (running_branch e fault s).2 = Rerun
  ∧ state (running_branch e fault s).1 ≠ state s
  ∧ logs s `prefix_of` logs (running_branch e fault s).1
  ∧ rationales (running_branch e fault s).1 = rationales s
  ∧ affected (running_branch e fault s).1 = affected s.
Proof.
  intros Hstate.
  assert (fault = None
          ∨ (∃ pos ex, fault = Some (pos, ex) ∧ length (try_body e) < pos)
          ∨ (∃ pos ex, fault = Some (pos, ex) ∧ pos ≤ length (try_body e)))
    as [Hf|[Hf|(pos & ex & -> & Hpos)]].
  { destruct fault as [[pos ex]|]; [|by left]. right.
    destruct (decide (pos ≤ length (try_body e))); [right|left];
      exists pos, ex; split; [done|lia|done|lia]. }
  - rewrite running_branch_complete by (by left). cbn [fst snd].
    rewrite try_body_complete, Hstate. cbn.
    repeat split; try done. by apply prefix_app_r.
  - rewrite running_branch_complete by (by right). cbn [fst snd].
    rewrite try_body_complete, Hstate. cbn.
    repeat split; try done. by apply prefix_app_r.
  - rewrite running_branch_fault by done. cbn [fst snd].
    destruct (try_body_frame e pos s {| t0 := 0; t1 := 0 |})
      as ([lines Hlines] & Hrat & Haff).
    rewrite Hstate. cbn. rewrite Hlines.
    repeat split; try done. rewrite <- app_assoc. by apply prefix_app_r.
Qed.

Lemma state_cases s :
  state s = "Idle" ∨ state s = "Running" ∨ state s = "Complete"
  ∨ state s = "Failure"
  ∨ state s ∉ ["Idle"; "Running"; "Complete"; "Failure"].
Proof.
  destruct (decide (state s ∈ ["Idle"; "Running"; "Complete"; "Failure"]))
    as [Hin|Hout]; [|by do 4 right].
  repeat (apply elem_of_cons in Hin as [->|Hin]; [tauto|]).
  by apply elem_of_nil in Hin.
Qed.

(** X9. The log only grows: every run of the script, in every state and
    whatever is clicked or raised, keeps the lines of the log and adds
    after them, except the "Reset" of the Complete state. *)
Theorem log_append_only (ev : event) (e : env) (fault : option (nat * exn))
    (s : session) :
  ¬ (state s = "Complete" ∧ ev = Click "Reset") →
  logs s `prefix_of` logs (run_script doc_build ev e fault (Some s)).1.
Proof.
  intros Hreset.
  destruct (state_cases s) as [Hst|[Hst|[Hst|[Hst|Hst]]]].
  - rewrite run_script_idle by done. by destruct (button ev "Run Analysis").
  - rewrite run_script_running by done. by apply running_branch_frame.
  - rewrite run_script_complete by done.
    destruct (complete_branch_frame ev e s) as [[Hev _]|(_ & _ & _ & _ & Hlogs)];
      [by destruct Hreset|done].
  - rewrite run_script_failure by done. by destruct (button ev "Retry").
  - rewrite run_script_other by done. by destruct (button ev "Retry").
Qed.

(** X10. A run of the script ends in a rerun exactly when it has changed
    the workflow state; a run that does not end in a rerun leaves the
    results and the error as well. *)
Theorem rerun_iff_state_changed (ev : event) (e : env)
    (fault : option (nat * exn)) (s : session) :
  let s' := (run_script doc_build ev e fault (Some s)).1 in
  let how := (run_script doc_build ev e fault (Some s)).2 in
  (how = Rerun ↔ state s' ≠ state s)
  ∧ (how ≠ Rerun → results s' = results s ∧ error s' = error s).
Proof.
  intros s' how. unfold s', how. clear s' how.
  destruct (state_cases s) as [Hst|[Hst|[Hst|[Hst|Hst]]]].
  - rewrite run_script_idle by done.
    destruct (button ev "Run Analysis"); cbn; rewrite ?Hst; by repeat split.
  - rewrite run_script_running by done.
    destruct (running_branch_frame e fault s Hst) as (Hrun & Hne & _).
    by repeat split.
  - rewrite run_script_complete by done.
    destruct (complete_branch_frame ev e s)
      as [[_ ->]|(Hhow & Hstate & Hres & Herr & _)].
    + cbn. rewrite Hst. by repeat split.
    + split; [|done]. split; [done|]. intros Hne. by destruct Hne.
  - rewrite run_script_failure by done.
    destruct (button ev "Retry"); cbn; rewrite ?Hst; by repeat split.
  - rewrite run_script_other by done.
    destruct (button ev "Retry"); cbn.
    + split; [|done]. split; [|done]. intros _ Heq. apply Hst.
      rewrite <- Heq. set_solver.
    + by repeat split.
Qed.

(** X11. Outside the Complete state no run touches the edit maps. *)
Theorem edit_maps_change_only_in_complete (ev : event) (e : env)
    (fault : option (nat * exn)) (s : session) :
  state s ≠ "Complete" →
  rationales (run_script doc_build ev e fault (Some s)).1 = rationales s
  ∧ affected (run_script doc_build ev e fault (Some s)).1 = affected s.
Proof.
  intros Hnc.
  destruct (state_cases s) as [Hst|[Hst|[Hst|[Hst|Hst]]]]; [| |done| |].
  - rewrite run_script_idle by done. by destruct (button ev "Run Analysis").
  - rewrite run_script_running by done. by apply running_branch_frame.
  - rewrite run_script_failure by done. by destruct (button ev "Retry").
  - rewrite run_script_other by done. by destruct (button ev "Retry").
Qed.

End Runs.

(** ** Sessions reachable under any exception *)

Section AnyFault.

Variable doc_build : list flowable → list Byte.byte.

Lemma reachable_any_of_reachable s :
  reachable doc_build s → reachable_any doc_build s.
Proof.
  induction 1 as [|s s' _ IH (ev & e & fault & _ & Hrun)]; [constructor|].
  apply (any_next doc_build s); [done|]. by exists ev, e, fault.
Qed.

Lemma any_step_invariant s s' :
  any_invariant s → any_step doc_build s s' → any_invariant s'.
Proof.
  intros Hinv (ev & e & fault & <-).
  destruct Hinv as [(Hst & Herr)|[(Hst & Herr)
                   |[(Hst & Hres & Herr)|(Hst & msg & Herr)]]].
  - rewrite run_script_idle by done. destruct (button ev "Run Analysis").
    + right; left. done.
    + left. done.
  - rewrite run_script_running by done.
    assert (fault = None
            ∨ (∃ pos ex, fault = Some (pos, ex) ∧ length (try_body e) < pos)
            ∨ (∃ pos ex, fault = Some (pos, ex) ∧ pos ≤ length (try_body e)))
      as [Hf|[Hf|(pos & ex & -> & Hpos)]].
    { destruct fault as [[pos ex]|]; [|by left]. right.
      destruct (decide (pos ≤ length (try_body e))); [right|left];
        exists pos, ex; split; [done|lia|done|lia]. }
    + rewrite running_branch_complete by (by left).
      right; right; left. cbn [fst]. by rewrite try_body_complete.
    + rewrite running_branch_complete by (by right).
      right; right; left. cbn [fst]. by rewrite try_body_complete.
    + rewrite running_branch_fault by done.
      do 3 right. split; [done|]. by eexists.
  - rewrite run_script_complete by done.
    destruct (complete_branch_spec doc_build ev e s STUB_UPDATES Hres
                stub_updates_recognized)
      as (s1 & pdf & Hst1 & Hres1 & Herr1 & ->).
    destruct (button ev "Reset").
    + left. done.
    + right; right; left. cbn [fst]. by rewrite Hst1, Hres1, Herr1.
  - rewrite run_script_failure by done. destruct (button ev "Retry").
    + left. done.
    + do 3 right. cbn [fst]. split; [done|]. by exists msg.
Qed.

Lemma reachable_any_invariant s : reachable_any doc_build s → any_invariant s.
Proof.
  induction 1 as [|s s' _ IH Hstep].
  - left. done.
  - by eapply any_step_invariant.
Qed.

(** C7, as the code has it. In every session reachable from the fresh one
    by runs of the script, the results are there whenever the state is
    Complete, and an error string is there only when the state is Failure.
    The results are there in no other state than Complete as long as every
    exception of the Running branch is raised before the results are
    stored, that is, no later than the failure hook. *)
Theorem reachable_results_and_error (s : session) :
  reachable_any doc_build s →
  (state s = "Complete" → is_Some (results s))
  ∧ (is_Some (error_string s) → state s = "Failure")
  ∧ (reachable doc_build s → (is_Some (results s) ↔ state s = "Complete")).
Proof.
  intros Hany. split; [|split].
  - intros Hstate.
    destruct (reachable_any_invariant s Hany)
      as [(Hst & _)|[(Hst & _)|[(_ & Hres & _)|(Hst & _)]]];
      try (by rewrite Hstate in Hst).
    rewrite Hres. by eexists.
  - destruct (reachable_any_invariant s Hany)
      as [(_ & Herr)|[(_ & Herr)|[(_ & _ & Herr)|(Hst & _)]]];
      [| | |done]; unfold error_string in *; rewrite Herr; by intros [].
  - intros Hreach.
    destruct (reachable_invariant doc_build s Hreach)
      as [(Hst & Hres & _)|[(Hst & Hres & _)
         |[(Hst & Hres & _)|(Hst & Hres & _)]]];
      rewrite Hst, Hres.
    + split; [by intros []|done].
    + split; [by intros []|done].
    + split; [done|by eexists].
    + split; [by intros []|done].
Qed.

End AnyFault.

Lemma late_failed_reachable : reachable_any outline_build late_failed_session.
Proof.
  apply (any_next outline_build running_session).
  - apply reachable_any_of_reachable, running_reachable.
  - by exists NoEvent, still_env, (Some (S FAILURE_HOOK, Exception "late")).
Qed.

Lemma reachable_results_and_error_witness :
  reachable_any outline_build completed_session
  ∧ (state completed_session = "Complete" → is_Some (results completed_session))
  ∧ (is_Some (error_string completed_session) → state completed_session = "Failure")
  ∧ (reachable outline_build completed_session →
       (is_Some (results completed_session) ↔ state completed_session = "Complete")).
Proof.
  assert (reachable_any outline_build completed_session) as H
    by (apply reachable_any_of_reachable, completed_reachable).
  split; [exact H|].
  exact (reachable_results_and_error outline_build completed_session H).
Defined.

(** C7, as the spec states it, fails when an exception is raised in the
    Running branch after the results are stored: the session is then in
    the Failure state and holds the results. *)
Lemma late_exception_keeps_results_in_failure :
  reachable_any outline_build late_failed_session
  ∧ ¬ ((is_Some (results late_failed_session)
        ↔ state late_failed_session = "Complete")
       ∧ (is_Some (error_string late_failed_session)
          → state late_failed_session = "Failure")).
Proof.
  split; [exact late_failed_reachable|].
  intros [[Hcomplete _] _].
  assert (is_Some (results late_failed_session)) as Hres by (by eexists).
  specialize (Hcomplete Hres). discriminate Hcomplete.
Qed.

(** ** Widgets, failures of the Complete branch, and reachable sessions *)

Lemma rationale_key_inj (i j : Z) :
  "rationale_" +:+ pretty i = "rationale_" +:+ pretty j → i = j.
Proof. intros H. apply (inj (String.app "rationale_")) in H. by apply (inj pretty). Qed.

Lemma affected_key_inj (i j : Z) :
  "affected_" +:+ pretty i = "affected_" +:+ pretty j → i = j.
Proof. intros H. apply (inj (String.app "affected_")) in H. by apply (inj pretty). Qed.

(** X12. A record's card reads its own two widgets and no other: text
    left in the rationale or affected-products widget of a record with
    another identifier does not change what the card returns, and text
    left in one of its own widgets changes that one value only. *)
Theorem render_update_card_own_widgets (e : env) (u : update) (text : string) :
  (∀ u', id u' ≠ id u →
     render_update_card (with_widget ("rationale_" +:+ pretty (id u')) text e) u
     = render_update_card e u
     ∧ render_update_card (with_widget ("affected_" +:+ pretty (id u')) text e) u
       = render_update_card e u)
  ∧ render_update_card (with_widget ("rationale_" +:+ pretty (id u)) text e) u
    = (text, (render_update_card e u).2)
  ∧ render_update_card (with_widget ("affected_" +:+ pretty (id u)) text e) u
    = ((render_update_card e u).1, text).
Proof.
  unfold render_update_card, text_widget, with_widget. cbn [widgets fst snd].
  split; [|split].
  - intros u' Hne. split.
    + rewrite lookup_insert_ne by (by intros ?%rationale_key_inj).
      by rewrite lookup_insert_ne by done.
    + rewrite (lookup_insert_ne _ _ ("rationale_" +:+ _)) by done.
      by rewrite lookup_insert_ne by (by intros ?%affected_key_inj).
  - rewrite lookup_insert_eq. by rewrite lookup_insert_ne by done.
  - rewrite lookup_insert_eq. by rewrite lookup_insert_ne by done.
Qed.

Section Safety.

Variable doc_build : list flowable → list Byte.byte.

(** X13. In the Complete state, results that are [None], or that hold a
    record of an unrecognized level, make every run of the script raise
    before any button is read: the session stays as it is, and "Reset"
    does not reset it. *)
Theorem complete_raises_on_bad_results (ev : event) (e : env)
    (fault : option (nat * exn)) (s : session) :
  state s = "Complete" →
  (results s = None →
     run_script doc_build ev e fault (Some s)
     = (s, Crashed (TypeError "'NoneType' object is not iterable")))
  ∧ (∀ l1 u l2,
       results s = Some (l1 ++ u :: l2) → Forall recognized l1 → ¬ recognized u →
       run_script doc_build ev e fault (Some s)
       = (s, Crashed (KeyError (impact_level u)))).
Proof.
  intros Hstate. rewrite run_script_complete by done. unfold complete_branch. split.
  - by intros ->.
  - intros l1 u l2 -> Hl1 Hu. by rewrite (group_first_unrecognized l1 u l2 Hl1 Hu).
Qed.

(** X14. From a session reachable by runs of the script, whatever was
    raised in them, a run other than a "Download PDF" click raises
    nothing: it ends at its last line or in a rerun. *)
Theorem reachable_never_raises (ev : event) (e : env)
    (fault : option (nat * exn)) (s : session) :
  reachable_any doc_build s →
  ev ≠ Click "Download PDF" →
  (run_script doc_build ev e fault (Some s)).2 = Finished None
  ∨ (run_script doc_build ev e fault (Some s)).2 = Rerun.
Proof.
  intros Hreach Hev.
  destruct (reachable_any_invariant doc_build s Hreach)
    as [(Hst & _)|[(Hst & _)|[(Hst & Hres & _)|(Hst & _)]]].
  - rewrite run_script_idle by done.
    destruct (button ev "Run Analysis"); [by right|by left].
  - rewrite run_script_running by done. right.
    by apply running_branch_frame.
  - rewrite run_script_complete by done.
    rewrite (complete_branch_closed doc_build ev e s STUB_UPDATES Hres
               stub_updates_recognized).
    assert (button ev "Download PDF" = false) as ->.
    { destruct (button ev "Download PDF") eqn:Hb; [|done].
      by apply button_true in Hb. }
    destruct (button ev "Reset"); [by right|by left].
  - rewrite run_script_failure by done.
    destruct (button ev "Retry"); [by right|by left].
Qed.

(** X15. The state of a reachable session is one of Idle, Running,
    Complete and Failure: the branch for any other state is never run. *)
Theorem reachable_state_recognized (s : session) :
  reachable doc_build s →
  state s ∈ ["Idle"; "Running"; "Complete"; "Failure"].
Proof.
  intros Hreach.
  destruct (reachable_invariant doc_build s Hreach)
    as [(-> & _)|[(-> & _)|[(-> & _)|(-> & _)]]]; set_solver.
Qed.

Lemma shipped_step_not_failure ev e s :
  workflow_invariant s → state s ≠ "Failure" →
  state (run_script doc_build ev e None (Some s)).1 ≠ "Failure".
Proof.
  intros [(Hst & _)|[(Hst & _)|[(Hst & Hres & _)|(Hst & _)]]] Hnf; [| | |done].
  - rewrite run_script_idle by done.
    destruct (button ev "Run Analysis"); cbn; by rewrite ?Hst.
  - rewrite run_script_running by done.
    rewrite running_branch_complete by (by left). cbn [fst].
    by rewrite try_body_complete.
  - rewrite run_script_complete by done.
    destruct (complete_branch_frame doc_build ev e s)
      as [[_ ->]|(_ & -> & _)]; [done|by rewrite Hst].
Qed.

(** X16. As shipped, with the failure hook commented out, the script
    never reaches the Failure state and never holds an error string; its
    sessions are among the reachable ones. *)
Theorem shipped_never_fails (s : session) :
  reachable_shipped doc_build s →
  state s ≠ "Failure" ∧ error_string s = None ∧ reachable doc_build s.
Proof.
  intros Hshipped.
  assert (reachable doc_build s ∧ state s ≠ "Failure") as [Hreach Hnf].
  { induction Hshipped as [|s ev e _ [Hreach Hnf]].
    - split; [constructor|done].
    - split.
      + apply (reachable_step doc_build s); [done|]. by exists ev, e, None.
      + apply shipped_step_not_failure; [by apply (reachable_invariant doc_build)|done]. }
  split; [done|]. split; [|done].
  destruct (reachable_invariant doc_build s Hreach)
    as [(_ & _ & Herr)|[(_ & _ & Herr)|[(_ & _ & Herr)|(Hst & _)]]];
    unfold error_string; try (by rewrite Herr); done.
Qed.

(** X17. From any Idle session, "Run Analysis" and the run that its rerun
    starts, when nothing is raised, end in the Complete state with the
    seeded records as results, no error, the edit maps as they were, and
    the log extended by the four lines of the pipeline. *)
Theorem run_analysis_completes (e1 e2 : env) (ev2 : event)
    (fault1 : option (nat * exn)) (s : session) :
  state s = "Idle" →
  ∃ s1 s2,
    run_script doc_build (Click "Run Analysis") e1 fault1 (Some s) = (s1, Rerun)
    ∧ run_script doc_build ev2 e2 None (Some s1) = (s2, Rerun)
    ∧ state s2 = "Complete"
    ∧ results s2 = Some STUB_UPDATES
    ∧ error s2 = ErrNone
    ∧ rationales s2 = rationales s ∧ affected s2 = affected s
    ∧ logs s2 = logs s
        ++ [ "Ingestion started at " +:+ strftime_hms (now e2 0);
             "Parsing started at " +:+ strftime_hms (now e2 1);
             "Classification started at " +:+ strftime_hms (now e2 2);
             "Analysis complete in " +:+ format_2f (time e2 1 - time e2 0)
               +:+ " seconds." ].
Proof.
  intros Hstate. eexists _, _.
  rewrite run_script_idle by done. cbn [button].
  rewrite bool_decide_true by done. split; [reflexivity|].
  rewrite run_script_running by done.
  rewrite running_branch_complete by (by left).
  rewrite try_body_complete. split; [reflexivity|]. by repeat split.
Qed.

End Safety.

(** *** The runs at the seeded sessions *)


Lemma unknown_update_unrecognized : ¬ recognized unknown_update.
Proof. by apply (bool_decide_unpack _). Qed.

Lemma completed_shipped : reachable_shipped outline_build completed_session.
Proof.
  apply (shipped_step outline_build running_session NoEvent still_env).
  apply (shipped_step outline_build fresh_session (Click "Run Analysis") still_env).
  constructor.
Qed.


Lemma log_append_only_witness :
  ¬ (state failed_session = "Complete" ∧ Click "Reset" = Click "Reset")
  ∧ logs failed_session
    `prefix_of` logs (run_script outline_build (Click "Reset") still_env None
                        (Some failed_session)).1.
Proof.
  assert (¬ (state failed_session = "Complete" ∧ Click "Reset" = Click "Reset"))
    as H by (intros [H _]; discriminate H).
  split; [exact H|].
  exact (log_append_only outline_build (Click "Reset") still_env None
           failed_session H).
Defined.

Lemma edit_maps_change_only_in_complete_witness :
  state paused_session ≠ "Complete"
  ∧ rationales (run_script outline_build (Click "Retry") edited_env None
                  (Some paused_session)).1 = rationales paused_session
  ∧ affected (run_script outline_build (Click "Retry") edited_env None
                (Some paused_session)).1 = affected paused_session.
Proof.
  assert (state paused_session ≠ "Complete") as H by discriminate.
  split; [exact H|].
  exact (edit_maps_change_only_in_complete outline_build (Click "Retry")
           edited_env None paused_session H).
Defined.

Lemma complete_raises_on_bad_results_witness :
  state unassessed_session = "Complete"
  ∧ results unassessed_session = Some (STUB_UPDATES ++ unknown_update :: [])
  ∧ run_script outline_build (Click "Reset") still_env None (Some unassessed_session)
    = (unassessed_session, Crashed (KeyError (impact_level unknown_update))).
Proof.
  split; [reflexivity|]. split; [reflexivity|].
  destruct (complete_raises_on_bad_results outline_build (Click "Reset") still_env
              None unassessed_session eq_refl) as [_ H].
  exact (H STUB_UPDATES unknown_update [] eq_refl stub_updates_recognized
           unknown_update_unrecognized).
Defined.

Lemma reachable_never_raises_witness :
  reachable_any outline_build late_failed_session
  ∧ Click "Reset" ≠ Click "Download PDF"
  ∧ ((run_script outline_build (Click "Reset") still_env None
        (Some late_failed_session)).2 = Finished None
     ∨ (run_script outline_build (Click "Reset") still_env None
          (Some late_failed_session)).2 = Rerun).
Proof.
  assert (Click "Reset" ≠ Click "Download PDF") as Hev by discriminate.
  split; [exact late_failed_reachable|]. split; [exact Hev|].
  exact (reachable_never_raises outline_build (Click "Reset") still_env None
           late_failed_session late_failed_reachable Hev).
Defined.

Lemma reachable_state_recognized_witness :
  reachable outline_build running_session
  ∧ state running_session ∈ ["Idle"; "Running"; "Complete"; "Failure"].
Proof.
  split; [exact running_reachable|].
  exact (reachable_state_recognized outline_build running_session running_reachable).
Defined.

Lemma shipped_never_fails_witness :
  reachable_shipped outline_build completed_session
  ∧ state completed_session ≠ "Failure"
  ∧ error_string completed_session = None
  ∧ reachable outline_build completed_session.
Proof.
  split; [exact completed_shipped|].
  exact (shipped_never_fails outline_build completed_session completed_shipped).
Defined.

Lemma run_analysis_completes_witness :
  state fresh_session = "Idle"
  ∧ ∃ s1 s2,
    run_script outline_build (Click "Run Analysis") still_env None
      (Some fresh_session) = (s1, Rerun)
    ∧ run_script outline_build NoEvent still_env None (Some s1) = (s2, Rerun)
    ∧ state s2 = "Complete"
    ∧ results s2 = Some STUB_UPDATES
    ∧ error s2 = ErrNone
    ∧ rationales s2 = rationales fresh_session
    ∧ affected s2 = affected fresh_session
    ∧ logs s2 = logs fresh_session
        ++ [ "Ingestion started at " +:+ strftime_hms (now still_env 0);
             "Parsing started at " +:+ strftime_hms (now still_env 1);
             "Classification started at " +:+ strftime_hms (now still_env 2);
             "Analysis complete in "
               +:+ format_2f (time still_env 1 - time still_env 0)
               +:+ " seconds." ].
Proof.
  split; [reflexivity|].
  exact (run_analysis_completes outline_build still_env still_env NoEvent None
           fresh_session eq_refl).
Defined.
